(** * Verona FFI bridge and MLIR generator: a shallow embedding

    The development follows two source files:

    - [src/mlir/generator.cc]   ([Module Generator]): the IR generator
      ([typeConversion], [typePromotion], [generateGEP], [generateLoad],
      [generateStore], [generateAutoLoad], the constant builders,
      [generateArithmetic], [generateConstantString], [generateProto],
      [generateEmptyFunction]);
    - [src/ffi/CXXInterface.h]  ([Module CXXInterface]): the type bridge
      ([getType], [getTypeSize], [getQualType],
      [createTemplateArgumentForType], [instantiateClassTemplate],
      [instantiateFunction], [createFunctionArgument],
      [createIntegerLiteral], [createReturn]).

    Both files drive a mutable object (the MLIR [builder], the Clang
    [ASTContext]); the embedding threads that object explicitly through a
    small state-and-abort monad.  A failing [assert], and behaviour the C++
    standard leaves undefined (a null dereference, a read past the end of an
    array), end the run: they are the [Abort] outcome.  Assertions are
    modelled as enabled, those of the program and those of the LLVM, MLIR
    and Clang entry points it calls. *)

From Stdlib Require Import ZArith NArith List String Bool Lia Permutation.
From Stdlib Require DecimalString DecimalN.
From stdpp Require Import base gmap.
Import ListNotations.
Local Open Scope string_scope.
Local Open Scope list_scope.

(** ** Outcomes and the state-and-abort monad *)

Inductive Fatal : Type :=
| AssertionFailed (msg : string)    (* a failed [assert] *)
| UncaughtException (what : string) (* a C++ exception nobody catches *)
| NullDereference (what : string)   (* a null pointer or handle was used *)
| OutOfBounds (what : string).      (* a read past the end of a sequence *)

Inductive Outcome (A : Type) : Type :=
| Done (a : A)
| Abort (f : Fatal).
Arguments Done {A} a.
Arguments Abort {A} f.

Definition M (S A : Type) : Type := S -> Outcome (A * S).

Definition ret {S A : Type} (a : A) : M S A := fun s => Done (a, s).

Definition bind {S A B : Type} (m : M S A) (k : A -> M S B) : M S B :=
  fun s => match m s with
           | Done (a, s') => k a s'
           | Abort f => Abort f
           end.

Definition abort {S A : Type} (f : Fatal) : M S A := fun _ => Abort f.

(** [assert(c && "msg")] *)
Definition assert {S : Type} (c : bool) (msg : string) : M S unit :=
  if c then ret tt else abort (AssertionFailed msg).

Declare Scope prog_scope.
Delimit Scope prog_scope with prog.
Notation "x <-- c ;; k" := (bind c (fun x => k))
  (at level 100, c at next level, right associativity) : prog_scope.
Notation "c ;;; k" := (bind c (fun _ => k))
  (at level 100, right associativity) : prog_scope.
Local Open Scope prog_scope.

(** * The IR generator ([src/mlir/generator.cc]) *)

Module Generator.

(** ** MLIR types

    The part of MLIR's type universe the generator inspects: the builtin
    index, integer and floating types and the LLVM-dialect pointer, struct
    and array types ([PointerType], [StructType] and [ArrayType] are the
    aliases declared at the top of the source file). *)

Inductive Signedness : Type := Signless | Signed | Unsigned.

Inductive FloatKind : Type := BF16 | F16 | F32 | F64.

#[local] Set Warnings "-register-all".
Inductive Ty : Type :=
| IndexType
| IntegerType (width : N) (sign : Signedness)
| FloatType (kind : FloatKind)
| PointerType (elem : Ty)
| StructType (name : option string) (body : list Ty)
| ArrayType (elem : Ty) (num : N).

(** The induction principle Rocq derives for [Ty] says nothing about the
    fields of a struct; this one does. *)
Fixpoint Ty_ind' (P : Ty -> Prop)
    (HIdx : P IndexType)
    (HInt : forall w s, P (IntegerType w s))
    (HFlt : forall k, P (FloatType k))
    (HPtr : forall e, P e -> P (PointerType e))
    (HStr : forall n body, Forall P body -> P (StructType n body))
    (HArr : forall e n, P e -> P (ArrayType e n))
    (t : Ty) {struct t} : P t :=
  match t with
  | IndexType => HIdx
  | IntegerType w s => HInt w s
  | FloatType k => HFlt k
  | PointerType e => HPtr e (Ty_ind' P HIdx HInt HFlt HPtr HStr HArr e)
  | StructType n body =>
      HStr n body
        ((fix fields (l : list Ty) : Forall P l :=
            match l with
            | [] => @List.Forall_nil Ty P
            | x :: xs =>
                @List.Forall_cons Ty P x xs
                  (Ty_ind' P HIdx HInt HFlt HPtr HStr HArr x) (fields xs)
            end) body)
  | ArrayType e n => HArr e n (Ty_ind' P HIdx HInt HFlt HPtr HStr HArr e)
  end.

Definition Signedness_eqb (a b : Signedness) : bool :=
  match a, b with
  | Signless, Signless | Signed, Signed | Unsigned, Unsigned => true
  | _, _ => false
  end.

Definition FloatKind_eqb (a b : FloatKind) : bool :=
  match a, b with
  | BF16, BF16 | F16, F16 | F32, F32 | F64, F64 => true
  | _, _ => false
  end.

Definition name_eqb (a b : option string) : bool :=
  match a, b with
  | None, None => true
  | Some x, Some y => String.eqb x y
  | _, _ => false
  end.

(** [lhsType == rhsType]: MLIR types are uniqued, so pointer equality of the
    handles is structural equality. *)
Fixpoint Ty_eqb (a b : Ty) {struct a} : bool :=
  match a, b with
  | IndexType, IndexType => true
  | IntegerType w s, IntegerType w' s' => N.eqb w w' && Signedness_eqb s s'
  | FloatType k, FloatType k' => FloatKind_eqb k k'
  | PointerType e, PointerType e' => Ty_eqb e e'
  | StructType n l, StructType n' l' =>
      name_eqb n n' &&
      (fix fields (l l' : list Ty) {struct l} : bool :=
         match l, l' with
         | [], [] => true
         | x :: xs, y :: ys => Ty_eqb x y && fields xs ys
         | _, _ => false
         end) l l'
  | ArrayType e n, ArrayType e' n' => Ty_eqb e e' && N.eqb n n'
  | _, _ => false
  end.

(** [ty.isa<IntegerType>()], [ty.isa<FloatType>()], [ty.isa<PointerType>()],
    [ty.isa<StructType>()], [ty.isIndex()]. *)
Definition isInteger (t : Ty) : bool :=
  match t with IntegerType _ _ => true | _ => false end.
Definition isFloat (t : Ty) : bool :=
  match t with FloatType _ => true | _ => false end.
Definition isPointerType (t : Ty) : bool :=
  match t with PointerType _ => true | _ => false end.
Definition isStructType (t : Ty) : bool :=
  match t with StructType _ _ => true | _ => false end.
Definition isIndex (t : Ty) : bool :=
  match t with IndexType => true | _ => false end.

(** [ty.isF32()], [ty.isF64()], [ty.isSignlessInteger()]. *)
Definition isF32 (t : Ty) : bool :=
  match t with FloatType F32 => true | _ => false end.
Definition isF64 (t : Ty) : bool :=
  match t with FloatType F64 => true | _ => false end.
Definition isSignlessInteger (t : Ty) : bool :=
  match t with IntegerType _ Signless => true | _ => false end.

(** [LLVM::isCompatibleType]: of the builtin types, the signless integers
    and the floating types; every type of the LLVM dialect (each of which
    checked its element types when it was built).  The index type and the
    signed and unsigned integers are not compatible. *)
Definition isCompatibleType (t : Ty) : bool :=
  match t with
  | IndexType => false
  | IntegerType _ sign => Signedness_eqb sign Signless
  | FloatType _ => true
  | PointerType _ | StructType _ _ | ArrayType _ _ => true
  end.

Definition floatWidth (k : FloatKind) : N :=
  match k with BF16 | F16 => 16 | F32 => 32 | F64 => 64 end%N.

(** ** Values, operations and the builder *)

Inductive OpName : Type :=
| SignExtendIOp | TruncateIOp | FPExtOp | FPTruncOp
| ConstantIndexOp | ConstantIntOp | ConstantFloatOp
| AddIOp | AddFOp | CallOp
| AllocaOp | GEPOp | LoadOp | StoreOp | AddressOfOp.

Definition isGEPOp (o : OpName) : bool :=
  match o with GEPOp => true | _ => false end.

(** An SSA value is the result of an operation or a block argument; only the
    former has a defining operation ([getDefiningOp] is null for the
    latter). *)
Inductive Definer : Type :=
| OpResult (id : nat) (op : OpName)
| BlockArgument (arg : nat).

Record Value : Type := mkValue { valDef : Definer; valType : Ty }.

(** The [std::variant<int, double>] of [generateConstant]; a double is kept
    as its IEEE-754 bit pattern. *)
Inductive Number : Type :=
| IntVal (i : Z)
| DoubleVal (bits : Z).

Record Operation : Type := mkOp {
  opId : nat;
  opName : OpName;
  opResultType : option Ty;
  opOperands : list Value;
  opAttr : option Number
}.

(** The builder: the operations emitted so far at the insertion point, in
    emission order, and the next fresh operation identity. *)
Record Builder : Type := mkBuilder {
  emitted : list Operation;
  nextId : nat
}.

(** [builder.create<Op>(loc, resultType, operands...)] for an operation with
    one result. *)
Definition create (o : OpName) (rty : Ty) (args : list Value)
    (attr : option Number) : M Builder Value :=
  fun b =>
    let op := mkOp (nextId b) o (Some rty) args attr in
    Done (mkValue (OpResult (nextId b) o) rty,
          mkBuilder (emitted b ++ [op]) (S (nextId b))).

(** [builder.create<Op>(...)] for an operation without results. *)
Definition createVoid (o : OpName) (args : list Value) : M Builder unit :=
  fun b =>
    let op := mkOp (nextId b) o None args None in
    Done (tt, mkBuilder (emitted b ++ [op]) (S (nextId b))).

(** [Type::getIntOrFloatBitWidth]: asserts that the type is an integer or a
    floating type. *)
Definition getIntOrFloatBitWidth (t : Ty) : M Builder N :=
  match t with
  | IntegerType w _ => ret w
  | FloatType k => ret (floatWidth k)
  | _ => abort (AssertionFailed "only integers and floats have a bitwidth")
  end.

(** ** [typeConversion] and [typePromotion] *)

Definition typeConversion (val : Value) (ty : Ty) : M Builder Value :=
  let valTy := valType val in
  valSize <-- getIntOrFloatBitWidth valTy ;;
  tySize <-- getIntOrFloatBitWidth ty ;;
  if (valSize =? tySize)%N then ret val
  else if isInteger valTy && isInteger ty then
    if (valSize <? tySize)%N
    then create SignExtendIOp ty [val] None
    else create TruncateIOp ty [val] None
  else if isFloat valTy && isFloat ty then
    if (valSize <? tySize)%N
    then create FPExtOp ty [val] None
    else create FPTruncOp ty [val] None
  else abort (AssertionFailed "Type casts between incompatible types").

Definition typePromotion (lhs rhs : Value) : M Builder (Value * Value) :=
  let lhsType := valType lhs in
  let rhsType := valType rhs in
  if Ty_eqb lhsType rhsType then ret (lhs, rhs)
  else
    lhsSize <-- getIntOrFloatBitWidth lhsType ;;
    rhsSize <-- getIntOrFloatBitWidth rhsType ;;
    if (lhsSize <? rhsSize)%N
    then lhs' <-- typeConversion lhs rhsType ;; ret (lhs', rhs)
    else rhs' <-- typeConversion rhs lhsType ;; ret (lhs, rhs').

(** ** Pointer helpers

    The source takes these four from [utils.h]. *)

(** Modelled from the spec: [isPointer] of [utils.h] is missing; the spec
    reads it as "[addr] is a pointer", that is, its type is a pointer
    type. *)
Definition isPointer (val : Value) : bool := isPointerType (valType val).

(** Modelled from the spec: [getElementType] of [utils.h] is missing; the
    spec calls its result "the pointee type".  A value that is no pointer
    has none. *)
Definition getElementType (val : Value) : M Builder Ty :=
  match valType val with
  | PointerType e => ret e
  | _ => abort (NullDereference "getElementType of a value that is no pointer")
  end.

(** Modelled from the spec: [isStructPointer] of [utils.h] is missing; the
    spec reads it as "[addr] is a pointer to an aggregate (struct) type". *)
Definition isStructPointer (val : Value) : bool :=
  match valType val with
  | PointerType e => isStructType e
  | _ => false
  end.

(** The field of a struct body at a C [int] index. *)
Definition fieldAt (body : list Ty) (offset : Z) : option Ty :=
  if (offset <? 0)%Z then None else nth_error body (Z.to_nat offset).

(** Modelled from the spec: [getFieldType] of [utils.h] is missing; the spec
    calls its result "the field's declared type" and requires [offset] to be
    a valid field index. *)
Definition getFieldType (structTy : Ty) (offset : Z) : M Builder Ty :=
  match structTy with
  | StructType _ body =>
      match fieldAt body offset with
      | Some fty => ret fty
      | None => abort (OutOfBounds "getFieldType: no field at this offset")
      end
  | _ => abort (AssertionFailed "getFieldType of a type that is no struct")
  end.

(** ** Constants *)

Definition I32 : Ty := IntegerType 32 Signless.

(** [std::get<int>] and [std::get<double>] throw [std::bad_variant_access]
    when the variant holds the other alternative. *)
Definition get_int (val : Number) : M Builder Z :=
  match val with
  | IntVal i => ret i
  | DoubleVal _ => abort (UncaughtException "std::bad_variant_access")
  end.

Definition get_double (val : Number) : M Builder Z :=
  match val with
  | DoubleVal d => ret d
  | IntVal _ => abort (UncaughtException "std::bad_variant_access")
  end.

(** [builder.create<ConstantIntOp>(loc, value, type)]: [ConstantIntOp::build]
    asserts that the type is a signless integer type. *)
Definition createConstantIntOp (value : Z) (type : Ty) : M Builder Value :=
  assert (isSignlessInteger type)
    "ConstantIntOp can only have signless integer type values" ;;;
  create ConstantIntOp type [] (Some (IntVal value)).

(** [builder.create<ConstantFloatOp>(loc, value, type)]: the attribute is
    built by [FloatAttr::get(type, value)], whose construction invariant is
    that the semantics of the value are those of the type.  The value is an
    [APFloat(double)], IEEE double, at the one call of the source. *)
Definition createConstantFloatOp (value : Z) (type : Ty) : M Builder Value :=
  assert (isF64 type)
    "FloatAttr type doesn't match the type implied by its value" ;;;
  create ConstantFloatOp type [] (Some (DoubleVal value)).

Definition generateConstant (ty : Ty) (val : Number) : M Builder Value :=
  if isIndex ty then
    i <-- get_int val ;; create ConstantIndexOp IndexType [] (Some (IntVal i))
  else if isInteger ty then
    i <-- get_int val ;; createConstantIntOp i ty
  else if isFloat ty then
    d <-- get_double val ;; createConstantFloatOp d ty
  else abort (AssertionFailed "Type not supported for zero").

Definition generateZero (ty : Ty) : M Builder Value :=
  if isFloat ty then generateConstant ty (DoubleVal 0)
  else generateConstant ty (IntVal 0).

(** ** Memory: [generateAlloca], [generateGEP], [generateLoad],
    [generateAutoLoad], [generateStore]

    The [Location] argument of the source functions only labels the emitted
    operations and is left out. *)

(** [PointerType::get(ty)]: the construction invariant of
    [LLVMPointerType] is that the pointee is a type the LLVM dialect is
    compatible with (and none of its void, token, metadata and label types,
    which the generator never builds). *)
Definition PointerType_get (pointee : Ty) : M Builder Ty :=
  assert (isCompatibleType pointee) "invalid pointer element type" ;;;
  ret (PointerType pointee).

Definition generateAlloca (ty : Ty) : M Builder Value :=
  len <-- generateConstant I32 (IntVal 1) ;;
  pointerTy <-- PointerType_get ty ;;
  create AllocaOp pointerTy [len] None.

Definition generateGEP (addr : Value) (offset : Z) : M Builder Value :=
  (* First argument is always in context of a list *)
  offsetList <-- (if isStructPointer addr
                  then zero <-- generateZero I32 ;; ret [zero]
                  else ret []) ;;
  (* Second argument is in context of the struct *)
  len <-- generateConstant I32 (IntVal offset) ;;
  let index := offsetList ++ [len] in
  elemTy <-- getElementType addr ;;
  retTy <-- (if isStructType elemTy then getFieldType elemTy offset
             else ret (valType addr)) ;;
  create GEPOp retTy (addr :: index) None.

(** [addr.getDefiningOp()]: null for a block argument. *)
Definition getDefiningOp (v : Value) : option OpName :=
  match valDef v with
  | OpResult _ o => Some o
  | BlockArgument _ => None
  end.

(** [isa<LLVM::GEPOp>(op)]: LLVM's [isa<>] asserts that its argument is not
    null. *)
Definition isa_GEPOp (op : option OpName) : M Builder bool :=
  match op with
  | Some o => ret (isGEPOp o)
  | None => abort (AssertionFailed "isa<> used on a null pointer")
  end.

(** [builder.create<LLVM::LoadOp>(loc, addr)]: the result type is the
    pointee type of [addr], obtained with an asserting [cast<>]. *)
Definition createLoad (addr : Value) : M Builder Value :=
  match valType addr with
  | PointerType e => create LoadOp e [addr] None
  | _ => abort (AssertionFailed "cast<Ty>() argument of incompatible type!")
  end.

(** [builder.create<LLVM::StoreOp>(loc, val, addr)] *)
Definition createStore (val addr : Value) : M Builder unit :=
  createVoid StoreOp [val; addr].

Definition generateLoad (addr : Value) (offset : Z) : M Builder Value :=
  isGEP <-- isa_GEPOp (getDefiningOp addr) ;;
  addr' <-- (if negb isGEP then generateGEP addr offset
             else assert (offset =? 0)%Z "Can't take an offset of a GEP" ;;;
                  ret addr) ;;
  createLoad addr'.

(** The expected type [ty] may be the null [Type]: [None]. *)
Definition generateAutoLoad (addr : Value) (ty : option Ty) (offset : Z)
    : M Builder Value :=
  (* If it's not an address, there's nothing to load *)
  if negb (isPointer addr) then ret addr
  (* If the expected type is a pointer, we want the address, not the value *)
  else if match ty with Some t => isPointerType t | None => false end
  then ret addr
  else
    elmTy <-- getElementType addr ;;
    (* If type was specified, check it matches the address type *)
    match ty with
    | Some t => assert (Ty_eqb elmTy t) "Invalid pointer load"
    | None => ret tt
    end ;;;
    generateLoad addr offset.

Definition generateStore (addr val : Value) (offset : Z) : M Builder unit :=
  isGEP <-- isa_GEPOp (getDefiningOp addr) ;;
  addr' <-- (if negb isGEP then generateGEP addr offset
             else assert (offset =? 0)%Z "Can't take an offset of a GEP" ;;;
                  ret addr) ;;
  createStore val addr'.

(** ** Vocabulary of the statements *)

(** The bit width of an integer or floating type. *)
Definition bitWidth (t : Ty) : option N :=
  match t with
  | IntegerType w _ => Some w
  | FloatType k => Some (floatWidth k)
  | _ => None
  end.

(** Both types are integer types, or both are floating types. *)
Definition sameDomain (a b : Ty) : bool :=
  (isInteger a && isInteger b) || (isFloat a && isFloat b).

(** One type is an integer type and the other a floating type. *)
Definition mixedDomain (a b : Ty) : bool :=
  (isInteger a && isFloat b) || (isFloat a && isInteger b).

(** The builder after one more operation. *)
Definition emit (b : Builder) (o : OpName) (rty : option Ty)
    (args : list Value) (attr : option Number) : Builder :=
  mkBuilder (emitted b ++ [mkOp (nextId b) o rty args attr]) (S (nextId b)).

(** The result value of the operation [emit] adds. *)
Definition resultOf (b : Builder) (o : OpName) (rty : Ty) : Value :=
  mkValue (OpResult (nextId b) o) rty.

(** ** Sample values *)

Definition emptyBuilder : Builder := mkBuilder [] 0.
Definition sample_i32 : Value :=
  mkValue (BlockArgument 0) (IntegerType 32 Signless).
Definition sample_i64 : Value :=
  mkValue (BlockArgument 1) (IntegerType 64 Signless).
Definition sample_f32 : Value := mkValue (BlockArgument 2) (FloatType F32).
Definition sample_f64 : Value := mkValue (BlockArgument 3) (FloatType F64).

(** A struct of two [int] fields, a stack slot for it, and the builder that
    has emitted the slot ([generateAlloca pairStruct] from the empty
    builder). *)
Definition pairStruct : Ty := StructType (Some "Pair") [I32; I32].
Definition pairSlot : Value :=
  mkValue (OpResult 1 AllocaOp) (PointerType pairStruct).
Definition pairBuilder : Builder :=
  emit (emit emptyBuilder ConstantIntOp (Some I32) [] (Some (IntVal 1)))
    AllocaOp (Some (PointerType pairStruct))
    [resultOf emptyBuilder ConstantIntOp I32] None.

(** A stack slot for an [int] ([generateAlloca I32] from the empty builder),
    the address [generateGEP intSlot 0] computes from it, and the builder
    after both. *)
Definition intSlot : Value := mkValue (OpResult 1 AllocaOp) (PointerType I32).
Definition intSlotAddress : Value :=
  mkValue (OpResult 3 GEPOp) (PointerType I32).
Definition intBuilder : Builder :=
  emit (emit emptyBuilder ConstantIntOp (Some I32) [] (Some (IntVal 1)))
    AllocaOp (Some (PointerType I32))
    [resultOf emptyBuilder ConstantIntOp I32] None.
Definition intSlotBuilder : Builder :=
  let b3 := emit intBuilder ConstantIntOp (Some I32) [] (Some (IntVal 0)) in
  emit b3 GEPOp (Some (PointerType I32))
    [intSlot; resultOf intBuilder ConstantIntOp I32] None.

(** A pointer-typed function parameter. *)
Definition pointerParameter : Value :=
  mkValue (BlockArgument 0) (PointerType I32).

(** ** Arithmetic: [generateArithmetic] *)

(** [llvm::StringSwitch<Value>(opName).Case("+", v).Default({})]: the null
    [Value] unless the name is [+]. The candidate [v] is an argument of
    [Case], so it has been built before the switch compares anything. *)
Definition StringSwitch_plus (opName : string) (v : Value) : option Value :=
  if String.eqb opName "+" then Some v else None.

(** The source calls [generateLoad(loc, lhs)] without an offset; the default
    value of that argument is declared in [generator.h], which is missing,
    and is the parameter [defaultOffset] here.  Values are never null in
    this embedding, so the first assertion of the source always holds. *)
Definition generateArithmetic (defaultOffset : Z) (opName : string)
    (lhs rhs : Value) : M Builder Value :=
  (* Make sure we're dealing with values, not pointers *)
  lhs <-- (if isPointer lhs then generateLoad lhs defaultOffset
           else ret lhs) ;;
  rhs <-- (if isPointer rhs then generateLoad rhs defaultOffset
           else ret rhs) ;;
  (* Promote types to be the same *)
  promoted <-- typePromotion lhs rhs ;;
  let lhs := fst promoted in
  let rhs := snd promoted in
  let retTy := valType lhs in
  if isF32 retTy || isF64 retTy then
    (* Floating point arithmetic *)
    sum <-- create AddFOp retTy [lhs; rhs] None ;;
    match StringSwitch_plus opName sum with
    | Some op => ret op
    | None => abort (AssertionFailed "Unknown arithmetic operator")
    end
  else
    (* Integer arithmetic *)
    assert (isInteger retTy) "Bad arithmetic types" ;;;
    sum <-- create AddIOp retTy [lhs; rhs] None ;;
    match StringSwitch_plus opName sum with
    | Some op => ret op
    | None => abort (AssertionFailed "Unknown arithmetic operator")
    end.

(** ** The module: [generateProto], [generateEmptyFunction],
    [generateConstantString]

    These functions also reach the module under construction and, for the
    names of constants, a counter that lives as long as the process. *)

Inductive Visibility : Type := Public | Private | Nested.

Inductive Linkage : Type := PrivateLinkage | InternalLinkage | ExternalLinkage.

(** An [LLVM::GlobalOp] holding a string. *)
Record GlobalOp : Type := mkGlobalOp {
  globalName : string;
  globalType : Ty;
  globalConstant : bool;
  globalLinkage : Linkage;
  globalValue : string
}.

Record Block : Type := mkBlock {
  blockArguments : list Ty;
  blockOperations : list Operation
}.

(** A [FuncOp]: symbol name, function type (inputs and results), visibility
    and body, a list of blocks that is empty for a declaration. *)
Record FuncOp : Type := mkFuncOp {
  funcName : string;
  funcInputs : list Ty;
  funcResults : list Ty;
  funcVisibility : Visibility;
  funcBlocks : list Block
}.

(** What the body of the module holds, in order. *)
Inductive Symbol : Type :=
| FuncSymbol (func : nat)
| GlobalSymbol (global : GlobalOp).

(** The generator: the builder, with the function whose entry block it
    fills (the builder holds the operations of the block at the insertion
    point; they are stored with their block when the insertion point
    moves); the symbol an emitted operation refers to, by operation
    identity; every [FuncOp] created so far, attached to the module or not;
    the body of the module; and [incr], the function-local static of
    [generateConstantString]. *)
Record State : Type := mkState {
  builder : Builder;
  insertionPoint : option nat;
  symbolRefs : gmap nat string;
  functionOps : gmap nat FuncOp;
  nextFunction : nat;
  moduleBody : list Symbol;
  incr : N
}.

Definition liftBuilder {A : Type} (m : M Builder A) : M State A :=
  fun g =>
    match m (builder g) with
    | Done (a, b') =>
        Done (a, mkState b' (insertionPoint g) (symbolRefs g)
                   (functionOps g) (nextFunction g) (moduleBody g) (incr g))
    | Abort f => Abort f
    end.

(** [size_t] has 64 bits on the platforms the generator is built for. *)
Definition size_t_modulus : N := (2 ^ 64)%N.

(** [std::to_string] of a [size_t]: its decimal digits. *)
Definition to_string (n : N) : string :=
  DecimalString.NilEmpty.string_of_uint (N.to_uint n).

(** [incr++]: the value before the increment. *)
Definition post_increment_incr : M State N :=
  fun g =>
    Done (incr g,
          mkState (builder g) (insertionPoint g) (symbolRefs g)
            (functionOps g) (nextFunction g) (moduleBody g)
            ((incr g + 1) mod size_t_modulus)%N).

(** [module->push_back(op)] *)
Definition push_back (sym : Symbol) : M State unit :=
  fun g =>
    Done (tt, mkState (builder g) (insertionPoint g) (symbolRefs g)
                (functionOps g) (nextFunction g) (moduleBody g ++ [sym])
                (incr g)).

(** [builder.create<LLVM::AddressOfOp>(loc, global)]: a pointer to the type
    of the global, referring to it by name. *)
Definition createAddressOf (global : GlobalOp) : M State Value :=
  fun g =>
    match create AddressOfOp (PointerType (globalType global)) [] None
            (builder g) with
    | Done (addr, b') =>
        Done (addr, mkState b' (insertionPoint g)
                      (<[nextId (builder g) := globalName global]>
                         (symbolRefs g))
                      (functionOps g) (nextFunction g) (moduleBody g)
                      (incr g))
    | Abort f => Abort f
    end.

Definition generateConstantString (str name : string) : M State Value :=
  (* Use auto-generated name if none provided *)
  nameStr <-- (if String.eqb name ""
               then n <-- post_increment_incr ;;
                    ret ("_string" ++ to_string n)%string
               else ret name) ;;
  (* In LLVM, strings are arrays of i8 elements *)
  let i8 := IntegerType 8 Signless in
  let strTy := ArrayType i8 (N.of_nat (String.length str)) in
  (* In LLVM, constant strings are global objects *)
  let global := mkGlobalOp nameStr strTy true PrivateLinkage str in
  push_back (GlobalSymbol global) ;;;
  (* But their addresses are a local operation *)
  createAddressOf global.

(** [FuncOp::create(loc, name, funcTy)] followed by [setVisibility]: a new
    function that belongs to no module yet. *)
Definition generateProto (name : string) (types retTy : list Ty)
    : M State nat :=
  fun g =>
    let func := mkFuncOp name types retTy Public [] in
    Done (nextFunction g,
          mkState (builder g) (insertionPoint g) (symbolRefs g)
            (<[nextFunction g := func]> (functionOps g))
            (S (nextFunction g)) (moduleBody g) (incr g)).

(** The symbol name of an entry of the module body. *)
Definition symbolName (g : State) (sym : Symbol) : option string :=
  match sym with
  | GlobalSymbol global => Some (globalName global)
  | FuncSymbol func => funcName <$> functionOps g !! func
  end.

(** [SymbolTable::lookupSymbolIn]: the first operation of the module body
    that carries the name. *)
Fixpoint lookupSymbolIn (g : State) (name : string) (body : list Symbol)
    : option Symbol :=
  match body with
  | [] => None
  | sym :: rest =>
      match symbolName g sym with
      | Some n => if String.eqb n name then Some sym
                  else lookupSymbolIn g name rest
      | None => lookupSymbolIn g name rest
      end
  end.

(** [module->lookupSymbol<FuncOp>(name)]: null when there is no such symbol
    and when the symbol is no function. *)
Definition lookupSymbol_FuncOp (name : string) (g : State) : option nat :=
  match lookupSymbolIn g name (moduleBody g) with
  | Some (FuncSymbol func) => Some func
  | _ => None
  end.

(** [func.addEntryBlock()]: MLIR asserts that the function has no block yet
    and gives the new block one argument per input of the function type. *)
Definition addEntryBlock (func : nat) : M State unit :=
  fun g =>
    match functionOps g !! func with
    | None => Abort (NullDereference "no such function")
    | Some f =>
        match funcBlocks f with
        | [] =>
            Done (tt, mkState (builder g) (insertionPoint g) (symbolRefs g)
                        (<[func := mkFuncOp (funcName f) (funcInputs f)
                                     (funcResults f) (funcVisibility f)
                                     [mkBlock (funcInputs f) []]]>
                           (functionOps g))
                        (nextFunction g) (moduleBody g) (incr g))
        | _ :: _ =>
            Abort (AssertionFailed "function already has an entry block")
        end
    end.

(** The operations the builder holds go to the entry block of the function
    at the insertion point. *)
Definition storeBlock (g : State) : gmap nat FuncOp :=
  match insertionPoint g with
  | None => functionOps g
  | Some cur =>
      match functionOps g !! cur with
      | Some f =>
          match funcBlocks f with
          | entry :: rest =>
              <[cur := mkFuncOp (funcName f) (funcInputs f) (funcResults f)
                         (funcVisibility f)
                         (mkBlock (blockArguments entry)
                            (emitted (builder g)) :: rest)]>
                (functionOps g)
          | [] => functionOps g
          end
      | None => functionOps g
      end
  end.

(** [builder.setInsertionPointToStart(&entryBlock)] for the entry block,
    still empty, of [func]. *)
Definition setInsertionPointToStart (func : nat) : M State unit :=
  fun g =>
    Done (tt, mkState (mkBuilder [] (nextId (builder g))) (Some func)
                (symbolRefs g) (storeBlock g) (nextFunction g)
                (moduleBody g) (incr g)).

Definition generateEmptyFunction (name : string) (types retTy : list Ty)
    : M State nat :=
  (* If it's not declared yet, do so. *)
  found <-- (fun g => Done (lookupSymbol_FuncOp name g, g)) ;;
  func <-- match found with
           | Some func => ret func
           | None => generateProto name types retTy
           end ;;
  (* Create entry block, set builder entry point *)
  addEntryBlock func ;;;
  setInsertionPointToStart func ;;;
  ret func.

(** ** Vocabulary of the further statements *)


Definition I8 : Ty := IntegerType 8 Signless.

(** The global [generateConstantString] adds for [str] under [name]. *)
Definition stringGlobal (name str : string) : GlobalOp :=
  mkGlobalOp name (ArrayType I8 (N.of_nat (String.length str))) true
    PrivateLinkage str.

(** Function identities in use lie below [nextFunction]. *)
Definition allocated (g : State) : Prop :=
  (forall func, nextFunction g <= func -> functionOps g !! func = None) /\
  (forall func, In (FuncSymbol func) (moduleBody g) ->
                func < nextFunction g) /\
  (forall func, insertionPoint g = Some func -> func < nextFunction g).

(** A declaration after [addEntryBlock]. *)
Definition withEntryBlock (f : FuncOp) : FuncOp :=
  mkFuncOp (funcName f) (funcInputs f) (funcResults f) (funcVisibility f)
    [mkBlock (funcInputs f) []].

(** A generator that has done nothing yet, and one whose module declares
    [puts] without a body. *)
Definition emptyState : State := mkState emptyBuilder None ∅ ∅ 0 [] 0.
Definition putsDeclaration : FuncOp :=
  mkFuncOp "puts" [PointerType I8] [I32] Private [].
Definition putsState : State :=
  mkState emptyBuilder None ∅ {[ 0 := putsDeclaration ]} 1 [FuncSymbol 0] 0.
(** A generator whose process has named one constant already. *)
Definition laterState : State := mkState emptyBuilder None ∅ ∅ 0 [] 1.

End Generator.

(** * The type bridge ([src/ffi/CXXInterface.h]) *)

Module CXXInterface.

(** Declarations live in the AST storage of the host session and are handed
    around as pointers; a [DeclId] is such a pointer. *)
Definition DeclId : Type := nat.

(** ** Type handles *)

(** Modelled from the spec: [CXXType.h] is missing.  The spec describes the
    handle as a tagged variant over Invalid, Builtin(kind), Class,
    TemplateClass, SpecializedTemplateClass and Enum; the source names the
    same six kinds in [getQualType]. *)
Inductive Kind : Type :=
| Invalid
| TemplateClass
| SpecializedTemplateClass
| Class
| Enum
| Builtin.

(** The builtin kinds [typeForBuiltin] switches over. *)
Inductive BuiltinTypeKinds : Type :=
| Float | Double | Bool | SChar | Char | UChar | Short | UShort
| Int | UInt | Long | ULong | LongLong | ULongLong.

(** [clang::TypeInfo], in bits; a width of zero means "not computed". *)
Record TypeInfo : Type := mkTypeInfo { Width : N; Align : N }.

(** Modelled from the spec: the handle of the missing [CXXType.h] "wraps an
    opaque reference into AST storage" and "carries a lazily computed
    (width, alignment) pair, initially unset"; builtin kinds carry no
    reference.  The field names are those the source reads: [kind],
    [builtTypeKind] and [sizeAndAlign]; [decl] is the reference that
    [getAs<...>()] hands out. *)
Record CXXType : Type := mkCXXType {
  kind : Kind;
  builtTypeKind : option BuiltinTypeKinds;
  decl : option DeclId;
  sizeAndAlign : TypeInfo
}.

Definition unsetTypeInfo : TypeInfo := mkTypeInfo 0 0.

(** Modelled from the spec: the constructors of the missing [CXXType.h], one
    per kind; a lookup miss "yields an Invalid handle", so the empty handle
    [CXXType()] is the Invalid one. *)
Definition CXXType_empty : CXXType :=
  mkCXXType Invalid None None unsetTypeInfo.
(** [CXXType] built from a [ClassTemplateDecl] pointer. *)
Definition CXXType_template (d : DeclId) : CXXType :=
  mkCXXType TemplateClass None (Some d) unsetTypeInfo.
(** [CXXType] built from a [ClassTemplateSpecializationDecl] pointer. *)
Definition CXXType_specialization (d : DeclId) : CXXType :=
  mkCXXType SpecializedTemplateClass None (Some d) unsetTypeInfo.
(** [CXXType] built from a [CXXRecordDecl] pointer. *)
Definition CXXType_class (d : DeclId) : CXXType :=
  mkCXXType Class None (Some d) unsetTypeInfo.
(** [CXXType] built from an [EnumDecl] pointer. *)
Definition CXXType_enum (d : DeclId) : CXXType :=
  mkCXXType Enum None (Some d) unsetTypeInfo.
(** [CXXType] built from a builtin kind. *)
Definition CXXType_builtin (k : BuiltinTypeKinds) : CXXType :=
  mkCXXType Builtin (Some k) None unsetTypeInfo.

(** ** The host's types and template arguments *)

Inductive ClangType : Type :=
| BuiltinTy (k : BuiltinTypeKinds)   (* [ast->FloatTy], [ast->IntTy], ... *)
| VoidTy
| RecordType (d : DeclId)
| EnumType (d : DeclId).

(** A [QualType] may be null ([QualType{}]). *)
Definition QualType : Type := option ClangType.

Inductive TemplateArgument : Type :=
| NullArgument                                  (* [TemplateArgument{}] *)
| TypeArgument (t : ClangType)
| ExpressionArgument (t : ClangType) (bits : N) (value : N).
    (* an integer literal, [createTemplateArgumentForIntegerValue] *)

#[global] Instance Kind_eq_dec : EqDecision Kind.
Proof. solve_decision. Defined.
#[global] Instance BuiltinTypeKinds_eq_dec : EqDecision BuiltinTypeKinds.
Proof. solve_decision. Defined.
#[global] Instance ClangType_eq_dec : EqDecision ClangType.
Proof. solve_decision. Defined.
#[global] Instance TemplateArgument_eq_dec : EqDecision TemplateArgument.
Proof. solve_decision. Defined.

(** ** Declarations held by the session *)

(** The declarations the AST matchers can bind. A [CXXRecordDecl] node
    carries what [getDefinition()] returns for it. *)
Inductive NodeKind : Type :=
| CXXRecordDeclNode (definition : option DeclId)
| ClassTemplateDeclNode
| EnumDeclNode
| OtherDeclNode.

Record NamedDecl : Type := mkNamedDecl {
  declId : DeclId;
  qualifiedName : string;
  nodeKind : NodeKind
}.

Inductive TemplateSpecializationKind : Type :=
| TSK_Undeclared
| TSK_ImplicitInstantiation
| TSK_ExplicitSpecialization
| TSK_ExplicitInstantiationDeclaration
| TSK_ExplicitInstantiationDefinition.

(** A class template: whether its pattern (the templated declaration) has a
    definition, and its set of specializations, keyed by argument list. *)
Record ClassTemplateDecl : Type := mkClassTemplateDecl {
  patternDefined : bool;
  specializations : list (list TemplateArgument * DeclId)
}.

Record ClassTemplateSpecializationDecl : Type := mkSpecializationDecl {
  specializedTemplate : DeclId;
  templateArgs : list TemplateArgument;
  specializationKind : TemplateSpecializationKind;
  definition : option DeclId;
  instantiatedAttrs : nat   (* how often attributes were instantiated on it *)
}.

Record ParmVarDecl : Type := mkParmVarDecl {
  parmFunction : DeclId;
  parmName : string;
  parmType : QualType
}.

(** A function declaration: the parameter and return types of its
    prototype, its parameter array [ParamInfo] (null until [setParams]) and
    its body. *)
Record FunctionDecl : Type := mkFunctionDecl {
  fnName : string;
  fnParamTypes : list QualType;
  fnReturnType : QualType;
  ParamInfo : option (list DeclId);
  fnBody : option DeclId
}.

(** The session: the [ASTContext] behind [ast] together with the compiler
    instance [Clang]. *)
Record Session : Type := mkSession {
  ast : list NamedDecl;               (* what [matchAST] traverses, in order *)
  templates : gmap DeclId ClassTemplateDecl;
  specDecls : gmap DeclId ClassTemplateSpecializationDecl;
  functions : gmap DeclId FunctionDecl;
  parameters : gmap DeclId ParmVarDecl;
  nextDecl : DeclId;                  (* the next unused declaration *)
  layout : ClangType -> TypeInfo;     (* the type-layout facility *)
  endOfFile : nat                      (* a [SourceLocation]; 0 is invalid *)
}.

Definition set_templates (f : gmap DeclId ClassTemplateDecl ->
                              gmap DeclId ClassTemplateDecl) (s : Session) :=
  mkSession (ast s) (f (templates s)) (specDecls s) (functions s)
    (parameters s) (nextDecl s) (layout s) (endOfFile s).
Definition set_specDecls (f : gmap DeclId ClassTemplateSpecializationDecl ->
                              gmap DeclId ClassTemplateSpecializationDecl)
    (s : Session) :=
  mkSession (ast s) (templates s) (f (specDecls s)) (functions s)
    (parameters s) (nextDecl s) (layout s) (endOfFile s).
Definition set_functions (f : gmap DeclId FunctionDecl ->
                              gmap DeclId FunctionDecl) (s : Session) :=
  mkSession (ast s) (templates s) (specDecls s) (f (functions s))
    (parameters s) (nextDecl s) (layout s) (endOfFile s).
Definition set_parameters (f : gmap DeclId ParmVarDecl ->
                               gmap DeclId ParmVarDecl) (s : Session) :=
  mkSession (ast s) (templates s) (specDecls s) (functions s)
    (f (parameters s)) (nextDecl s) (layout s) (endOfFile s).

(** [DC->addDecl(d)] on the translation unit: later traversals visit [d],
    after the declarations that were there. *)
Definition addDecl (d : NamedDecl) (s : Session) : Session :=
  mkSession (ast s ++ [d]) (templates s) (specDecls s) (functions s)
    (parameters s) (nextDecl s) (layout s) (endOfFile s).

(** Allocation of a declaration in the AST arena. *)
Definition freshDecl : M Session DeclId :=
  fun s => Done (nextDecl s,
                 mkSession (ast s) (templates s) (specDecls s) (functions s)
                   (parameters s) (S (nextDecl s)) (layout s) (endOfFile s)).

(** ** [getType] *)

(** [hasName(name)] with a name that starts with [::] matches the
    declarations whose fully qualified name is exactly that name. *)
Definition hasName (name : string) (d : NamedDecl) : bool :=
  String.eqb name ("::" ++ qualifiedName d)%string.

(** The three locals the match callbacks write. *)
Record Found : Type := mkFound {
  foundEnum : option DeclId;
  foundClass : option DeclId;
  foundTemplateClass : option DeclId
}.

(** What the three registered matchers do on one declaration, in the order
    of registration: [cxxRecordDecl], [classTemplateDecl], [enumDecl]. *)
Definition runMatchers (name : string) (f : Found) (d : NamedDecl) : Found :=
  let f1 :=
    match nodeKind d with
    | CXXRecordDeclNode def =>
        if hasName name d then
          match def with
          | Some defn => mkFound (foundEnum f) (Some defn) (foundTemplateClass f)
          | None => f
          end
        else f
    | _ => f
    end in
  let f2 :=
    match nodeKind d with
    | ClassTemplateDeclNode =>
        if hasName name d
        then mkFound (foundEnum f1) (foundClass f1) (Some (declId d))
        else f1
    | _ => f1
    end in
  match nodeKind d with
  | EnumDeclNode =>
      if hasName name d
      then mkFound (Some (declId d)) (foundClass f2) (foundTemplateClass f2)
      else f2
  | _ => f2
  end.

(** [finder.matchAST( *ast )] *)
Definition matchAST (name : string) (decls : list NamedDecl) : Found :=
  fold_left (runMatchers name) decls (mkFound None None None).

Definition getType (name : string) : M Session CXXType :=
  fun s =>
    let name := ("::" ++ name)%string in
    let f := matchAST name (ast s) in
    match foundTemplateClass f with
    | Some d => Done (CXXType_template d, s)
    | None =>
        match foundClass f with
        | Some d => Done (CXXType_class d, s)
        | None =>
            match foundEnum f with
            | Some d => Done (CXXType_enum d, s)
            | None => Done (CXXType_empty, s)
            end
        end
    end.

(** ** [getQualType] and [getTypeSize] *)

Definition typeForBuiltin (ty : option BuiltinTypeKinds) : QualType :=
  match ty with
  | Some k => Some (BuiltinTy k)
  | None => Some VoidTy
  end.

(** Modelled from the spec: [getAs<T>()] of the missing [CXXType.h] hands
    out the declaration the handle wraps; the host dereferences it. *)
Definition getAs (ty : CXXType) : M Session DeclId :=
  match decl ty with
  | Some d => ret d
  | None => abort (NullDereference "handle without a declaration")
  end.

Definition getQualType (ty : CXXType) : M Session QualType :=
  match kind ty with
  | Invalid | TemplateClass =>
      (* TODO: Fix template class *)
      ret None
  | SpecializedTemplateClass | Class =>
      d <-- getAs ty ;; ret (Some (RecordType d))
  | Enum =>
      d <-- getAs ty ;; ret (Some (EnumType d))
  | Builtin => ret (typeForBuiltin (builtTypeKind ty))
  end.

(** [ast->getTypeInfo(ty)]: the null type has no type pointer to hand to the
    layout query. *)
Definition getTypeInfo (ty : QualType) : M Session TypeInfo :=
  fun s =>
    match ty with
    | Some t => Done (layout s t, s)
    | None => Abort (AssertionFailed "Cannot retrieve a NULL type pointer")
    end.

Definition Kind_eqb (a b : Kind) : bool := bool_decide (a = b).

(** The handle is passed by reference; the updated handle is returned next
    to the size. *)
Definition getTypeSize (t : CXXType) : M Session (N * CXXType) :=
  assert (negb (Kind_eqb (kind t) Invalid)) "t.kind != CXXType::Kind::Invalid" ;;;
  t' <-- (if (Width (sizeAndAlign t) =? 0)%N then
            ty <-- getQualType t ;;
            info <-- getTypeInfo ty ;;
            ret (mkCXXType (kind t) (builtTypeKind t) (decl t) info)
          else ret t) ;;
  ret ((Width (sizeAndAlign t') / 8)%N, t').

(** Returns the type as a template argument. *)
Definition createTemplateArgumentForType (t : CXXType)
    : M Session TemplateArgument :=
  match kind t with
  | Invalid | TemplateClass => ret NullArgument
  | SpecializedTemplateClass | Class =>
      d <-- getAs t ;; ret (TypeArgument (RecordType d))
  | Enum => d <-- getAs t ;; ret (TypeArgument (EnumType d))
  | Builtin =>
      match typeForBuiltin (builtTypeKind t) with
      | Some ty => ret (TypeArgument ty)
      | None => ret NullArgument
      end
  end.

(** ** [instantiateClassTemplate] *)

(** The class template a declaration pointer refers to. *)
Definition getClassTemplate (d : DeclId) : M Session ClassTemplateDecl :=
  fun s =>
    match templates s !! d with
    | Some t => Done (t, s)
    | None => Abort (NullDereference "no such class template")
    end.

Definition getSpecializationDecl (d : DeclId)
    : M Session ClassTemplateSpecializationDecl :=
  fun s =>
    match specDecls s !! d with
    | Some sd => Done (sd, s)
    | None => Abort (NullDereference "no such specialization")
    end.

Fixpoint lookupSpecialization (args : list TemplateArgument)
    (l : list (list TemplateArgument * DeclId)) : option DeclId :=
  match l with
  | [] => None
  | (k, d) :: rest =>
      if decide (k = args) then Some d else lookupSpecialization args rest
  end.

(** [ClassTemplate->findSpecialization(args, InsertPos)] *)
Definition findSpecialization (ClassTemplate : DeclId)
    (args : list TemplateArgument) : M Session (option DeclId) :=
  t <-- getClassTemplate ClassTemplate ;;
  ret (lookupSpecialization args (specializations t)).

(** [ClassTemplateSpecializationDecl::Create(...)]: a new declaration, not
    yet declared by anyone and without definition. *)
Definition ClassTemplateSpecializationDecl_Create (ClassTemplate : DeclId)
    (args : list TemplateArgument) : M Session DeclId :=
  d <-- freshDecl ;;
  fun s =>
    Done (d, set_specDecls
               (insert d (mkSpecializationDecl ClassTemplate args
                            TSK_Undeclared None 0)) s).

(** [ClassTemplate->AddSpecialization(Decl, InsertPos)] *)
Definition AddSpecialization (ClassTemplate Decl : DeclId)
    (args : list TemplateArgument) : M Session unit :=
  t <-- getClassTemplate ClassTemplate ;;
  fun s =>
    Done (tt, set_templates
                (insert ClassTemplate
                   (mkClassTemplateDecl (patternDefined t)
                      (specializations t ++ [(args, Decl)]))) s).

(** [S.InstantiateAttrsForDecl(TemplateArgLists, pattern, Decl)] *)
Definition InstantiateAttrsForDecl (Decl : DeclId) : M Session unit :=
  sd <-- getSpecializationDecl Decl ;;
  fun s =>
    Done (tt, set_specDecls
                (insert Decl
                   (mkSpecializationDecl (specializedTemplate sd)
                      (templateArgs sd) (specializationKind sd)
                      (definition sd) (S (instantiatedAttrs sd)))) s).

(** [S.InstantiateClassTemplateSpecialization(loc, Decl, TSK)]: when the
    pattern of the template is defined, the host completes [Decl] in place
    (it becomes its own definition, of kind [TSK]); otherwise it reports a
    diagnostic and leaves [Decl] as it was. *)
Definition InstantiateClassTemplateSpecialization (Decl : DeclId)
    (TSK : TemplateSpecializationKind) : M Session unit :=
  sd <-- getSpecializationDecl Decl ;;
  t <-- getClassTemplate (specializedTemplate sd) ;;
  if patternDefined t then
    fun s =>
      Done (tt, set_specDecls
                  (insert Decl
                     (mkSpecializationDecl (specializedTemplate sd)
                        (templateArgs sd) TSK (Some Decl)
                        (instantiatedAttrs sd))) s)
  else ret tt.

(** Modelled from the spec: [Compiler.h] is missing; the spec asks the host
    for "a stable end-of-file source-location anchor". *)
Definition getEndOfFileLocation : M Session nat :=
  fun s => Done (endOfFile s, s).

Definition instantiateClassTemplate (classTemplate : CXXType)
    (args : list TemplateArgument) : M Session CXXType :=
  if negb (Kind_eqb (kind classTemplate) TemplateClass)
  then ret CXXType_empty
  else
    (* Check if this specialisation is already present in the AST *)
    ClassTemplate <-- getAs classTemplate ;;
    found <-- findSpecialization ClassTemplate args ;;
    Decl <-- match found with
             | Some d => ret d
             | None =>
                 d <-- ClassTemplateSpecializationDecl_Create
                         ClassTemplate args ;;
                 AddSpecialization ClassTemplate d args ;;;
                 ret d
             end ;;
    (* If specialisation hasn't been directly declared yet (by the user),
       instantiate the declaration. *)
    sd <-- getSpecializationDecl Decl ;;
    match specializationKind sd with
    | TSK_Undeclared => InstantiateAttrsForDecl Decl
    | _ => ret tt
    end ;;;
    (* If specialisation hasn't been defined yet, create its definition at
       the end of the file. *)
    sd <-- getSpecializationDecl Decl ;;
    Def <-- match definition sd with
            | Some d => ret d
            | None =>
                InstantiationLoc <-- getEndOfFileLocation ;;
                assert (negb (InstantiationLoc =? 0)%nat)
                  "InstantiationLoc.isValid()" ;;;
                InstantiateClassTemplateSpecialization Decl
                  TSK_ExplicitInstantiationDefinition ;;;
                sd <-- getSpecializationDecl Decl ;;
                match definition sd with
                | Some d => ret d
                | None =>
                    abort (AssertionFailed "isa<> used on a null pointer")
                end
            end ;;
    ret (CXXType_specialization Def).

(** ** [instantiateFunction] and [createFunctionArgument] *)

Definition getFunction (func : DeclId) : M Session FunctionDecl :=
  fun s =>
    match functions s !! func with
    | Some f => Done (f, s)
    | None => Abort (NullDereference "no such function")
    end.

Fixpoint getQualTypes (args : list CXXType) : M Session (list QualType) :=
  match args with
  | [] => ret []
  | argTy :: rest =>
      q <-- getQualType argTy ;;
      qs <-- getQualTypes rest ;;
      ret (q :: qs)
  end.

Definition instantiateFunction (name : string) (args : list CXXType)
    (retn : CXXType) : M Session DeclId :=
  argTys <-- getQualTypes args ;;
  retTy <-- getQualType retn ;;
  func <-- freshDecl ;;
  fun s =>
    (* Associate with the translation unit *)
    Done (func, set_functions
                  (insert func (mkFunctionDecl name argTys retTy None None))
                  (addDecl (mkNamedDecl func name OtherDeclNode) s)).

(** [ParmVarDecl::Create(...)] *)
Definition ParmVarDecl_Create (func : DeclId) (name : string) (ty : QualType)
    : M Session DeclId :=
  arg <-- freshDecl ;;
  fun s =>
    Done (arg, set_parameters (insert arg (mkParmVarDecl func name ty)) s).

(** [func->setParams(NewParamInfo)]: Clang installs the array as the
    parameter array of the function, after asserting that none is installed
    yet and that its length is the prototype's parameter count; an empty
    array leaves [ParamInfo] null. *)
Definition setParams (func : DeclId) (NewParamInfo : list DeclId)
    : M Session unit :=
  f <-- getFunction func ;;
  assert (match ParamInfo f with None => true | Some _ => false end)
    "Already has param info!" ;;;
  assert (length NewParamInfo =? length (fnParamTypes f))%nat
    "Parameter count mismatch!" ;;;
  fun s =>
    Done (tt, set_functions
                (insert func
                   (mkFunctionDecl (fnName f) (fnParamTypes f)
                      (fnReturnType f)
                      (match NewParamInfo with
                       | [] => None
                       | _ => Some NewParamInfo
                       end)
                      (fnBody f))) s).

(** [func->parameters()] *)
Definition getParams (func : DeclId) (s : Session) : option (list DeclId) :=
  match functions s !! func with
  | Some f => Some (match ParamInfo f with Some l => l | None => [] end)
  | None => None
  end.

Definition createFunctionArgument (name : string) (ty : CXXType)
    (func : DeclId) : M Session DeclId :=
  _f <-- getFunction func ;;          (* [func->getLocation()] *)
  q <-- getQualType ty ;;
  arg <-- ParmVarDecl_Create func name q ;;
  setParams func [arg] ;;;
  ret arg.

(** ** Vocabulary of the statements *)

(** The three pattern categories of [getType], as predicates on one
    declaration: a class template of that name, a class of that name that
    has a definition, an enum of that name. *)
Definition matchesTemplate (name : string) (d : NamedDecl) : bool :=
  match nodeKind d with
  | ClassTemplateDeclNode => hasName name d
  | _ => false
  end.

Definition matchesClass (name : string) (d : NamedDecl) : bool :=
  match nodeKind d with
  | CXXRecordDeclNode (Some _) => hasName name d
  | _ => false
  end.

Definition matchesEnum (name : string) (d : NamedDecl) : bool :=
  match nodeKind d with
  | EnumDeclNode => hasName name d
  | _ => false
  end.

(** The kind the priority order template, class, enum selects. *)
Definition selectedKind (name : string) (decls : list NamedDecl) : Kind :=
  if existsb (matchesTemplate name) decls then TemplateClass
  else if existsb (matchesClass name) decls then Class
  else if existsb (matchesEnum name) decls then Enum
  else Invalid.

Definition isSome {A : Type} (o : option A) : bool :=
  match o with Some _ => true | None => false end.

(** The session with another traversal order of the same declarations. *)
Definition reordered (decls : list NamedDecl) (s : Session) : Session :=
  mkSession decls (templates s) (specDecls s) (functions s) (parameters s)
    (nextDecl s) (layout s) (endOfFile s).

(** The part of [instantiateClassTemplate] that follows once [Decl] is
    known: attributes, then the definition. *)
Definition complete (Decl : DeclId) : M Session CXXType :=
    sd <-- getSpecializationDecl Decl ;;
    match specializationKind sd with
    | TSK_Undeclared => InstantiateAttrsForDecl Decl
    | _ => ret tt
    end ;;;
    sd <-- getSpecializationDecl Decl ;;
    Def <-- match definition sd with
            | Some d => ret d
            | None =>
                InstantiationLoc <-- getEndOfFileLocation ;;
                assert (negb (InstantiationLoc =? 0)%nat)
                  "InstantiationLoc.isValid()" ;;;
                InstantiateClassTemplateSpecialization Decl
                  TSK_ExplicitInstantiationDefinition ;;;
                sd <-- getSpecializationDecl Decl ;;
                match definition sd with
                | Some d => ret d
                | None =>
                    abort (AssertionFailed "isa<> used on a null pointer")
                end
            end ;;
    ret (CXXType_specialization Def).

(** ** A sample session

    A header that declares an enum [Box], then a class [Box] with two [int]
    fields, then a class template [Box]; every type is laid out on 32
    bits. *)
Definition sampleAST : list NamedDecl :=
  [ mkNamedDecl 1 "Box" EnumDeclNode;
    mkNamedDecl 2 "Box" (CXXRecordDeclNode (Some 2));
    mkNamedDecl 3 "Box" ClassTemplateDeclNode;
    mkNamedDecl 4 "Box" (CXXRecordDeclNode (Some 4)) ].

Definition sampleSession : Session :=
  mkSession sampleAST {[ 3 := mkClassTemplateDecl true [] ]} ∅ ∅ ∅ 10
    (fun _ => mkTypeInfo 32 32) 1.

Definition intType : CXXType := CXXType_builtin Int.

(** Two successive [createFunctionArgument] calls on a fresh one-parameter
    function, and what [func->parameters()] is afterwards. *)
Definition twoArguments
    : M Session (DeclId * DeclId * option (list DeclId)) :=
  func <-- instantiateFunction "f" [intType] intType ;;
  a <-- createFunctionArgument "a" intType func ;;
  b <-- createFunctionArgument "b" intType func ;;
  fun s => Done ((a, b, getParams func s), s).

(** ** Statements: [createIntegerLiteral] and [createReturn]

    The expressions and statements the bridge synthesizes live in the same
    AST storage as the declarations. *)

Inductive Stmt : Type :=
| IntegerLiteral (bits : N) (value : N) (type : ClangType)
| ReturnStmt (retValue : option DeclId).

(** The session together with the statements allocated in its storage. *)
Record Arena : Type := mkArena {
  session : Session;
  statements : gmap DeclId Stmt
}.

Definition liftSession {A : Type} (m : M Session A) : M Arena A :=
  fun a =>
    match m (session a) with
    | Done (x, s') => Done (x, mkArena s' (statements a))
    | Abort f => Abort f
    end.

(** Allocation of a statement. *)
Definition allocateStmt (st : Stmt) : M Arena DeclId :=
  id <-- liftSession freshDecl ;;
  fun a => Done (id, mkArena (session a) (<[id := st]> (statements a))).

(** [llvm::APInt num{len, val}]: LLVM asserts a nonzero width and keeps the
    low [len] bits of the 64-bit [val]. *)
Definition APInt (len val : N) : M Arena (N * N) :=
  assert (negb (len =? 0)%N) "bitwidth too small" ;;;
  ret (len, (val mod 2 ^ len)%N).

(** [IntegerLiteral::Create( *ast, num, type, loc)]: Clang asserts that the
    type is an integer type and that the width of the value is the width
    of the type.  (An enum passes the first assertion when it is complete
    and unscoped; the session records neither, and the bridge only ever
    passes [int].) *)
Definition IntegerLiteral_Create (num : N * N) (type : QualType)
    : M Arena DeclId :=
  ty <-- match type with
         | Some (BuiltinTy Float) | Some (BuiltinTy Double)
         | Some VoidTy | Some (RecordType _) =>
             abort (AssertionFailed "Illegal type in IntegerLiteral")
         | Some ty => ret ty
         | None =>
             abort (AssertionFailed "Cannot retrieve a NULL type pointer")
         end ;;
  info <-- liftSession (getTypeInfo (Some ty)) ;;
  assert (fst num =? Width info)%N
    "Integer type is not the correct size for constant." ;;;
  allocateStmt (IntegerLiteral (fst num) (snd num) ty).

(** [CXXType::getInt()] of the missing [CXXType.h] is taken to be the
    handle of the builtin kind [Int]. *)
Definition createIntegerLiteral (len val : N) : M Arena DeclId :=
  num <-- APInt len val ;;
  type <-- liftSession (getQualType (CXXType_builtin Int)) ;;
  IntegerLiteral_Create num type.

(** [func->setBody(stmt)] *)
Definition setBody (func stmt : DeclId) : M Session unit :=
  f <-- getFunction func ;;
  fun s =>
    Done (tt, set_functions
                (insert func
                   (mkFunctionDecl (fnName f) (fnParamTypes f)
                      (fnReturnType f) (ParamInfo f) (Some stmt))) s).

(** The returned expression [val] may be null. *)
Definition createReturn (val : option DeclId) (func : DeclId)
    : M Arena DeclId :=
  _f <-- liftSession (getFunction func) ;;   (* [func->getLocation()] *)
  retStmt <-- allocateStmt (ReturnStmt val) ;;
  liftSession (setBody func retStmt) ;;;
  ret retStmt.

(** ** Vocabulary of the further statements *)

(** A specialization of template [T] for [args] is cached and its
    definition is [Def]. *)
Definition cachedDefinition (T : DeclId) (args : list TemplateArgument)
    (Def : DeclId) (s : Session) : Prop :=
  exists tpl Decl sd,
    templates s !! T = Some tpl /\
    lookupSpecialization args (specializations tpl) = Some Decl /\
    specDecls s !! Decl = Some sd /\
    definition sd = Some Def.

(** The kinds whose type is named through the declaration of the handle. *)
Definition needsDeclaration (k : Kind) : bool :=
  match k with
  | SpecializedTemplateClass | Class | Enum => true
  | _ => false
  end.

(** Specialization declarations in use lie below [nextDecl]. *)
Definition ordered (s : Session) : Prop :=
  forall d sd, specDecls s !! d = Some sd -> d < nextDecl s.

(** Synthesis of [int name(k param) { return val; }], start to end. *)
Definition synthesizeConstantFunction (name param : string)
    (k : BuiltinTypeKinds) (len val : N)
    : M Arena (DeclId * DeclId * DeclId * DeclId) :=
  func <-- liftSession
             (instantiateFunction name [CXXType_builtin k] intType) ;;
  arg <-- liftSession
            (createFunctionArgument param (CXXType_builtin k) func) ;;
  lit <-- createIntegerLiteral len val ;;
  stmt <-- createReturn (Some lit) func ;;
  ret (func, arg, lit, stmt).

Definition sampleArena : Arena := mkArena sampleSession ∅.

(** The sample session with a function [int f()] declared as number 5. *)
Definition sampleFunctionArena : Arena :=
  mkArena
    (set_functions
       (insert 5 (mkFunctionDecl "f" [] (Some (BuiltinTy Int)) None None))
       sampleSession)
    ∅.

End CXXInterface.

(** * Properties *)

Lemma bind_Done {S A B : Type} (m : M S A) (k : A -> M S B) s a s' :
  m s = Done (a, s') -> bind m k s = k a s'.
Proof. intros H. unfold bind. now rewrite H. Qed.

Lemma bind_Abort {S A B : Type} (m : M S A) (k : A -> M S B) s f :
  m s = Abort f -> bind m k s = Abort f.
Proof. intros H. unfold bind. now rewrite H. Qed.

Lemma bind_inv {S A B : Type} (m : M S A) (k : A -> M S B) s b s'' :
  bind m k s = Done (b, s'') ->
  exists a s', m s = Done (a, s') /\ k a s' = Done (b, s'').
Proof.
  unfold bind. destruct (m s) as [[a s']|f]; [|discriminate].
  intros H. now exists a, s'.
Qed.

Lemma assert_inv {S : Type} (c : bool) msg (s : S) u s' :
  assert c msg s = Done (u, s') -> c = true /\ s' = s.
Proof.
  destruct c; cbn; [|discriminate]. intros H. now inversion H.
Qed.

(** ** The IR generator *)

Section GeneratorFacts.
Import Generator.

Lemma Signedness_eqb_eq a b : Signedness_eqb a b = true <-> a = b.
Proof. destruct a, b; cbn; split; congruence. Qed.

Lemma FloatKind_eqb_eq a b : FloatKind_eqb a b = true <-> a = b.
Proof. destruct a, b; cbn; split; congruence. Qed.

Lemma name_eqb_eq a b : name_eqb a b = true <-> a = b.
Proof.
  destruct a as [x|], b as [y|]; cbn; try (split; congruence).
  rewrite String.eqb_eq. split; congruence.
Qed.

(** [Ty_eqb] decides equality of types. *)
Lemma Ty_eqb_eq a : forall b, Ty_eqb a b = true <-> a = b.
Proof.
  induction a as [|w s|k|e IH|n body IH|e n IH] using Ty_ind';
    intros [|w' s'|k'|e'|n' body'|e' n']; cbn;
    try (split; [discriminate | congruence]); try tauto.
  - rewrite andb_true_iff, N.eqb_eq, Signedness_eqb_eq.
    split; [intros []; congruence | intros [= -> ->]; auto].
  - rewrite FloatKind_eqb_eq. split; congruence.
  - rewrite IH. split; congruence.
  - rewrite andb_true_iff, name_eqb_eq.
    assert (Hfields : forall l',
      (fix fields (l l' : list Ty) {struct l} : bool :=
         match l, l' with
         | [], [] => true
         | x :: xs, y :: ys => Ty_eqb x y && fields xs ys
         | _, _ => false
         end) body l' = true <-> body = l').
    { induction IH as [|x xs Hx _ IHxs]; intros [|y ys];
        try (split; [discriminate | congruence]); try tauto.
      rewrite andb_true_iff, Hx, IHxs.
      split; [intros []; congruence | intros [= -> ->]; auto]. }
    rewrite Hfields.
    split; [intros []; congruence | intros [= -> ->]; auto].
  - rewrite andb_true_iff, IH, N.eqb_eq.
    split; [intros []; congruence | intros [= -> ->]; auto].
Qed.

Lemma Ty_eqb_refl a : Ty_eqb a a = true.
Proof. now apply Ty_eqb_eq. Qed.

Lemma Ty_eqb_neq a b : a <> b -> Ty_eqb a b = false.
Proof.
  intros H. destruct (Ty_eqb a b) eqn:E; [|reflexivity].
  apply Ty_eqb_eq in E. contradiction.
Qed.

Lemma bitWidth_width t w b :
  bitWidth t = Some w -> getIntOrFloatBitWidth t b = Done (w, b).
Proof. destruct t; cbn; intros H; inversion H; reflexivity. Qed.

Lemma bitWidth_neq a b wa wb :
  bitWidth a = Some wa -> bitWidth b = Some wb -> wa <> wb -> a <> b.
Proof. intros Ha Hb Hne ->. congruence. Qed.

(** Conversion between an integer and a floating type of different widths
    is rejected by the assertion at the end of [typeConversion]. *)
Lemma typeConversion_mixed_widths val ty b wv wt :
  bitWidth (valType val) = Some wv -> bitWidth ty = Some wt -> wv <> wt ->
  mixedDomain (valType val) ty = true ->
  typeConversion val ty b =
    Abort (AssertionFailed "Type casts between incompatible types").
Proof.
  intros Hv Ht Hne Hmix. unfold typeConversion.
  rewrite (bind_Done _ _ _ _ _ (bitWidth_width _ _ b Hv)).
  rewrite (bind_Done _ _ _ _ _ (bitWidth_width _ _ b Ht)).
  apply N.eqb_neq in Hne. rewrite Hne.
  destruct (valType val), ty; cbn in Hmix; try discriminate; reflexivity.
Qed.

(** Conversion inside one domain to a type of another width emits exactly
    one conversion operation, whose result has the target type. *)
Lemma typeConversion_same_domain val ty b wv wt :
  bitWidth (valType val) = Some wv -> bitWidth ty = Some wt -> wv <> wt ->
  sameDomain (valType val) ty = true ->
  exists o, typeConversion val ty b =
              Done (resultOf b o ty, emit b o (Some ty) [val] None).
Proof.
  intros Hv Ht Hne Hsame. unfold typeConversion.
  rewrite (bind_Done _ _ _ _ _ (bitWidth_width _ _ b Hv)).
  rewrite (bind_Done _ _ _ _ _ (bitWidth_width _ _ b Ht)).
  apply N.eqb_neq in Hne. rewrite Hne.
  destruct (valType val), ty; cbn in Hsame; try discriminate; cbn;
    destruct (wv <? wt)%N; eexists; reflexivity.
Qed.

End GeneratorFacts.

Section GeneratorClaims.
Import Generator.

(** C1, as stated, fails: a 32-bit integer and a 64-bit floating value are
    an integer-or-floating pair, yet [typePromotion] returns no pair at all
    on them, let alone one of a shared type: the conversion it requests hits
    the incompatible-types assertion. *)
Lemma typePromotion_i32_f64_no_common_type :
  ~ exists l r b',
      typePromotion sample_i32 sample_f64 emptyBuilder = Done ((l, r), b') /\
      valType l = valType r.
Proof. intros (l & r & b' & H & _). vm_compute in H. discriminate. Qed.

(** C1, amended: [typePromotion] returns its operands unchanged, emitting
    nothing, when they share a type; when both types are integer types or
    both are floating types and their widths differ, it emits exactly one
    conversion of the narrower operand to the type of the wider one and
    returns a pair sharing that type; when one is an integer and the other a
    floating type of a different width, it ends in the incompatible-types
    assertion. *)
Theorem typePromotion_common_type (lhs rhs : Value) (b : Builder) :
  (valType lhs = valType rhs ->
   typePromotion lhs rhs b = Done ((lhs, rhs), b)) /\
  (forall wl wr,
     bitWidth (valType lhs) = Some wl -> bitWidth (valType rhs) = Some wr ->
     wl <> wr ->
     (sameDomain (valType lhs) (valType rhs) = true ->
      exists l r o,
        valType l = valType r /\
        ((wl < wr)%N /\ l = resultOf b o (valType rhs) /\ r = rhs /\
         typePromotion lhs rhs b =
           Done ((l, r), emit b o (Some (valType rhs)) [lhs] None)
         \/
         (wr < wl)%N /\ l = lhs /\ r = resultOf b o (valType lhs) /\
         typePromotion lhs rhs b =
           Done ((l, r), emit b o (Some (valType lhs)) [rhs] None))) /\
     (mixedDomain (valType lhs) (valType rhs) = true ->
      typePromotion lhs rhs b =
        Abort (AssertionFailed "Type casts between incompatible types"))).
Proof.
  split.
  - intros Heq. unfold typePromotion. rewrite Heq, Ty_eqb_refl. reflexivity.
  - intros wl wr Hl Hr Hne.
    assert (Hty : Ty_eqb (valType lhs) (valType rhs) = false)
      by (apply Ty_eqb_neq; eapply bitWidth_neq; eauto).
    assert (Hstart : typePromotion lhs rhs b =
      if (wl <? wr)%N
      then bind (typeConversion lhs (valType rhs)) (fun l => ret (l, rhs)) b
      else bind (typeConversion rhs (valType lhs)) (fun r => ret (lhs, r)) b).
    { unfold typePromotion. rewrite Hty.
      rewrite (bind_Done _ _ _ _ _ (bitWidth_width _ _ b Hl)).
      rewrite (bind_Done _ _ _ _ _ (bitWidth_width _ _ b Hr)).
      destruct (wl <? wr)%N; reflexivity. }
    split.
    + intros Hsame. destruct (wl <? wr)%N eqn:Hlt.
      * apply N.ltb_lt in Hlt.
        destruct (typeConversion_same_domain lhs (valType rhs) b wl wr
                    Hl Hr Hne Hsame) as [o Ho].
        exists (resultOf b o (valType rhs)), rhs, o. split; [reflexivity|].
        left. repeat split; auto.
        rewrite Hstart. now rewrite (bind_Done _ _ _ _ _ Ho).
      * apply N.ltb_ge in Hlt.
        assert (Hsame' : sameDomain (valType rhs) (valType lhs) = true).
        { unfold sameDomain in *.
          destruct (valType lhs), (valType rhs); cbn in *; congruence. }
        destruct (typeConversion_same_domain rhs (valType lhs) b wr wl
                    Hr Hl (not_eq_sym Hne) Hsame') as [o Ho].
        exists lhs, (resultOf b o (valType lhs)), o. split; [reflexivity|].
        right. repeat split; auto; [lia|].
        rewrite Hstart. now rewrite (bind_Done _ _ _ _ _ Ho).
    + intros Hmix. rewrite Hstart. destruct (wl <? wr)%N.
      * apply bind_Abort.
        now apply (typeConversion_mixed_widths lhs (valType rhs) b wl wr).
      * apply bind_Abort.
        apply (typeConversion_mixed_widths rhs (valType lhs) b wr wl);
          auto.
        unfold mixedDomain in *.
        destruct (valType lhs), (valType rhs); cbn in *; congruence.
Qed.

(** A run of the theorem above: promoting a 32-bit against a 64-bit
    integer sign-extends the former. *)
Lemma typePromotion_common_type_witness :
  exists l r o,
    valType l = valType r /\
    ((32 < 64)%N /\ l = resultOf emptyBuilder o (valType sample_i64) /\
     r = sample_i64 /\
     typePromotion sample_i32 sample_i64 emptyBuilder =
       Done ((l, r), emit emptyBuilder o (Some (valType sample_i64))
                       [sample_i32] None)
     \/
     (64 < 32)%N /\ l = sample_i32 /\
     r = resultOf emptyBuilder o (valType sample_i32) /\
     typePromotion sample_i32 sample_i64 emptyBuilder =
       Done ((l, r), emit emptyBuilder o (Some (valType sample_i32))
                       [sample_i64] None)).
Proof.
  apply (proj2 (typePromotion_common_type sample_i32 sample_i64 emptyBuilder)
           32%N 64%N); [reflexivity | reflexivity | lia | reflexivity].
Defined.

(** The same shortcut, seen from [typePromotion]: operands of one width
    but of different types come back as they are, with different types. *)
Example typePromotion_i32_f32_unchanged :
  typePromotion sample_i32 sample_f32 emptyBuilder =
    Done ((sample_i32, sample_f32), emptyBuilder).
Proof. reflexivity. Qed.

(** C2, at the failing input: converting a 32-bit integer value to the
    32-bit floating type trips no assertion; the value comes back as it is,
    still of its integer type, and nothing is emitted. *)
Theorem typeConversion_i32_to_f32_returns_input (d : Definer) (b : Builder) :
  typeConversion (mkValue d (IntegerType 32 Signless)) (FloatType F32) b =
    Done (mkValue d (IntegerType 32 Signless), b).
Proof. reflexivity. Qed.

(** C7: on a pointer to a struct that has a field number [offset],
    [generateGEP] emits the constants zero and [offset] and an address
    computation indexed by both, whose result type is the declared type of
    that field; on a pointer to anything but a struct it emits the constant
    [offset] and an address computation indexed by it alone, whose result
    type is the type of [addr]. *)
Theorem generateGEP_two_index_or_single (addr : Value) (offset : Z)
    (b : Builder) :
  (forall name body fty,
     valType addr = PointerType (StructType name body) ->
     fieldAt body offset = Some fty ->
     let b1 := emit b ConstantIntOp (Some I32) [] (Some (IntVal 0)) in
     let zero := resultOf b ConstantIntOp I32 in
     let b2 := emit b1 ConstantIntOp (Some I32) [] (Some (IntVal offset)) in
     let len := resultOf b1 ConstantIntOp I32 in
     generateGEP addr offset b =
       Done (resultOf b2 GEPOp fty,
             emit b2 GEPOp (Some fty) [addr; zero; len] None)) /\
  (forall elem,
     valType addr = PointerType elem -> isStructType elem = false ->
     let b1 := emit b ConstantIntOp (Some I32) [] (Some (IntVal offset)) in
     let len := resultOf b ConstantIntOp I32 in
     generateGEP addr offset b =
       Done (resultOf b1 GEPOp (valType addr),
             emit b1 GEPOp (Some (valType addr)) [addr; len] None)).
Proof.
  split.
  - intros name body fty Hty Hfield. cbv zeta.
    unfold generateGEP, isStructPointer, getElementType. rewrite Hty.
    cbn. unfold bind at 1. cbn. rewrite Hfield. reflexivity.
  - intros elem Hty Hns. cbv zeta.
    unfold generateGEP, isStructPointer, getElementType. rewrite Hty, Hns.
    cbn. rewrite Hns. reflexivity.
Qed.

(** Where the struct has no field number [offset] (the spec requires a
    valid field index) the read of the field type is out of bounds. *)
Remark generateGEP_no_such_field (addr : Value) (offset : Z) (b : Builder)
    name body :
  valType addr = PointerType (StructType name body) ->
  fieldAt body offset = None ->
  generateGEP addr offset b =
    Abort (OutOfBounds "getFieldType: no field at this offset").
Proof.
  intros Hty Hfield.
  unfold generateGEP, isStructPointer, getElementType. rewrite Hty.
  cbn. unfold bind at 1. cbn. now rewrite Hfield.
Qed.

(** Scenario A of the spec: the second field of a two-[int] struct. *)
Lemma generateGEP_two_index_or_single_witness :
  let b := pairBuilder in
  let b1 := emit b ConstantIntOp (Some I32) [] (Some (IntVal 0)) in
  let zero := resultOf b ConstantIntOp I32 in
  let b2 := emit b1 ConstantIntOp (Some I32) [] (Some (IntVal 1)) in
  let len := resultOf b1 ConstantIntOp I32 in
  generateGEP pairSlot 1 b =
    Done (resultOf b2 GEPOp I32,
          emit b2 GEPOp (Some I32) [pairSlot; zero; len] None).
Proof.
  exact (proj1 (generateGEP_two_index_or_single pairSlot 1 pairBuilder)
           (Some "Pair") [I32; I32] I32 eq_refl eq_refl).
Defined.

(** The sample slots are what the generator itself produces. *)
Example generateAlloca_pairSlot :
  generateAlloca pairStruct emptyBuilder = Done (pairSlot, pairBuilder).
Proof. reflexivity. Qed.

Example generateAlloca_intSlot :
  generateAlloca I32 emptyBuilder = Done (intSlot, intBuilder).
Proof. reflexivity. Qed.

Example generateGEP_intSlot :
  generateGEP intSlot 0 intBuilder = Done (intSlotAddress, intSlotBuilder).
Proof. reflexivity. Qed.

(** For an address that some operation produced, [generateLoad] and
    [generateStore] first run [generateGEP addr offset] and access memory
    through its result when that operation is no address computation; when
    it is one, they access memory through [addr] itself if [offset] is zero
    and end in the can't-take-an-offset assertion otherwise. *)
Lemma generateLoad_generateStore_addressing (addr val : Value)
    (offset : Z) (b : Builder) (id : nat) (op : OpName) :
  valDef addr = OpResult id op ->
  (isGEPOp op = false ->
   generateLoad addr offset b =
     (a <-- generateGEP addr offset ;; createLoad a) b /\
   generateStore addr val offset b =
     (a <-- generateGEP addr offset ;; createStore val a) b) /\
  (isGEPOp op = true ->
   (offset = 0%Z ->
    generateLoad addr offset b = createLoad addr b /\
    generateStore addr val offset b = createStore val addr b) /\
   (offset <> 0%Z ->
    generateLoad addr offset b =
      Abort (AssertionFailed "Can't take an offset of a GEP") /\
    generateStore addr val offset b =
      Abort (AssertionFailed "Can't take an offset of a GEP"))).
Proof.
  intros Hdef.
  unfold generateLoad, generateStore, getDefiningOp. rewrite Hdef. cbn.
  split; intros Hop; rewrite Hop; cbn.
  - split; reflexivity.
  - split.
    + intros ->. split; reflexivity.
    + intros Hne. apply Z.eqb_neq in Hne.
      unfold bind, assert. rewrite Hne. split; reflexivity.
Qed.

(** A run of the lemma above on the stack slot of an [int], which an
    [AllocaOp] produced. *)
Lemma generateLoad_generateStore_addressing_witness :
  generateLoad intSlot 0 intBuilder =
    (a <-- generateGEP intSlot 0 ;; createLoad a) intBuilder /\
  generateStore intSlot sample_i32 0 intBuilder =
    (a <-- generateGEP intSlot 0 ;; createStore sample_i32 a) intBuilder.
Proof.
  exact (proj1 (generateLoad_generateStore_addressing intSlot sample_i32 0
                  intBuilder 1 AllocaOp eq_refl) eq_refl).
Defined.

(** An address that a [GEPOp] produced is loaded from and stored to as it
    is. *)
Example generateLoad_precomputed_address :
  generateLoad intSlotAddress 0 intSlotBuilder =
    Done (resultOf intSlotBuilder LoadOp I32,
          emit intSlotBuilder LoadOp (Some I32) [intSlotAddress] None).
Proof. reflexivity. Qed.

(** A block argument has no defining operation for [isa<>] to inspect. *)
Remark generateLoad_block_argument (addr : Value) (offset : Z) (b : Builder)
    (n : nat) :
  valDef addr = BlockArgument n ->
  generateLoad addr offset b =
    Abort (AssertionFailed "isa<> used on a null pointer").
Proof.
  intros Hdef. unfold generateLoad, getDefiningOp. now rewrite Hdef.
Qed.

(** C8: a pointer-typed function parameter is an address that is not the
    result of a prior address computation, yet [generateLoad] and
    [generateStore] do not compute its effective address: a block argument
    has no defining operation, the test [isa<LLVM::GEPOp>] is made on the
    null pointer and fails its assertion, for every offset and stored value,
    although [generateGEP] on the parameter, followed by the load or the
    store, returns. *)
Theorem generateLoad_generateStore_block_argument (val : Value)
    (offset : Z) (b : Builder) :
  generateLoad pointerParameter offset b =
    Abort (AssertionFailed "isa<> used on a null pointer") /\
  generateStore pointerParameter val offset b =
    Abort (AssertionFailed "isa<> used on a null pointer") /\
  (exists r,
     (a <-- generateGEP pointerParameter offset ;; createLoad a) b =
       Done r) /\
  (exists r,
     (a <-- generateGEP pointerParameter offset ;; createStore val a) b =
       Done r).
Proof.
  split; [reflexivity|]. split; [reflexivity|].
  split; eexists; reflexivity.
Qed.

(** The defect is reached through [generateAutoLoad], whose first comment
    says that an address is loaded from. *)
Example generateAutoLoad_pointerParameter :
  generateAutoLoad pointerParameter None 0 emptyBuilder =
    Abort (AssertionFailed "isa<> used on a null pointer").
Proof. reflexivity. Qed.

(** C9: [generateAutoLoad] returns [addr] itself and emits nothing when
    [addr] is not pointer-typed, and also when [addr] is pointer-typed and
    the expected type is a pointer type, whatever the offset. *)
Theorem generateAutoLoad_no_load (addr : Value) (ty : option Ty)
    (offset : Z) (b : Builder) :
  (isPointerType (valType addr) = false ->
   generateAutoLoad addr ty offset b = Done (addr, b)) /\
  (isPointerType (valType addr) = true ->
   forall expected, ty = Some (PointerType expected) ->
   generateAutoLoad addr ty offset b = Done (addr, b)).
Proof.
  unfold generateAutoLoad, isPointer. split.
  - intros ->. reflexivity.
  - intros -> expected ->. reflexivity.
Qed.

(** Scenario D of the spec, and a plain value. *)
Lemma generateAutoLoad_no_load_witness :
  generateAutoLoad intSlot (Some (PointerType I32)) 7 intBuilder =
    Done (intSlot, intBuilder) /\
  generateAutoLoad sample_i32 None 7 intBuilder =
    Done (sample_i32, intBuilder).
Proof.
  split.
  - exact (proj2 (generateAutoLoad_no_load intSlot (Some (PointerType I32))
                    7 intBuilder) eq_refl I32 eq_refl).
  - exact (proj1 (generateAutoLoad_no_load sample_i32 None 7 intBuilder)
             eq_refl).
Defined.

End GeneratorClaims.

(** ** The type bridge *)

Section BridgeFacts.
Import CXXInterface.

(** *** [getType] *)

(** Each matcher writes its own local, and only on a declaration of its
    category that has the name. *)
Lemma runMatchers_found name f d :
  isSome (foundTemplateClass (runMatchers name f d)) =
    isSome (foundTemplateClass f) || matchesTemplate name d /\
  isSome (foundClass (runMatchers name f d)) =
    isSome (foundClass f) || matchesClass name d /\
  isSome (foundEnum (runMatchers name f d)) =
    isSome (foundEnum f) || matchesEnum name d.
Proof.
  unfold runMatchers, matchesTemplate, matchesClass, matchesEnum.
  destruct (nodeKind d) as [[defn|]| | |]; destruct (hasName name d); cbn;
    rewrite ?orb_false_r, ?orb_true_r; auto.
Qed.

Lemma matchAST_found name decls : forall f,
  let r := fold_left (runMatchers name) decls f in
  isSome (foundTemplateClass r) =
    isSome (foundTemplateClass f) || existsb (matchesTemplate name) decls /\
  isSome (foundClass r) =
    isSome (foundClass f) || existsb (matchesClass name) decls /\
  isSome (foundEnum r) =
    isSome (foundEnum f) || existsb (matchesEnum name) decls.
Proof.
  induction decls as [|d decls IH]; intros f; cbn.
  - now rewrite !orb_false_r.
  - destruct (IH (runMatchers name f d)) as (H1 & H2 & H3).
    destruct (runMatchers_found name f d) as (G1 & G2 & G3).
    cbv zeta in *. rewrite H1, H2, H3, G1, G2, G3, !orb_assoc. auto.
Qed.

Lemma existsb_Permutation {A} (p : A -> bool) l l' :
  Permutation l l' -> existsb p l = existsb p l'.
Proof.
  induction 1; cbn; try congruence.
  destruct (p x), (p y); reflexivity.
Qed.

Lemma selectedKind_Permutation name l l' :
  Permutation l l' -> selectedKind name l = selectedKind name l'.
Proof.
  intros H. unfold selectedKind.
  now rewrite !(existsb_Permutation _ _ _ H).
Qed.

Lemma getType_kind name s :
  exists h, getType name s = Done (h, s) /\
            kind h = selectedKind ("::" ++ name)%string (ast s).
Proof.
  unfold getType, selectedKind.
  destruct (matchAST_found ("::" ++ name)%string (ast s) (mkFound None None None))
    as (H1 & H2 & H3). cbv zeta in *. cbn in H1, H2, H3.
  unfold matchAST.
  destruct (foundTemplateClass _) as [d|]; cbn in H1; rewrite <- H1.
  { eexists; split; reflexivity. }
  destruct (foundClass _) as [d|]; cbn in H2; rewrite <- H2.
  { eexists; split; reflexivity. }
  destruct (foundEnum _) as [d|]; cbn in H3; rewrite <- H3.
  { eexists; split; reflexivity. }
  eexists; split; reflexivity.
Qed.

(** C4: [getType] always returns a handle and leaves the session as it
    was; the kind of the handle is TemplateClass if some class template has
    the name, else Class if some defined class has it, else Enum if some
    enum has it, else Invalid; and that kind is the same for every other
    order of the declarations. *)
Theorem getType_priority_order (name : string) (s : Session) :
  exists h,
    getType name s = Done (h, s) /\
    kind h = selectedKind ("::" ++ name)%string (ast s) /\
    forall decls, Permutation (ast s) decls ->
      exists h',
        getType name (reordered decls s) = Done (h', reordered decls s) /\
        kind h' = kind h.
Proof.
  destruct (getType_kind name s) as (h & Hrun & Hkind).
  exists h. repeat split; auto.
  intros decls Hperm.
  destruct (getType_kind name (reordered decls s)) as (h' & Hrun' & Hkind').
  exists h'. split; auto.
  rewrite Hkind, Hkind'. cbn. symmetry. now apply selectedKind_Permutation.
Qed.

(** In the sample header, where an enum, a class and a class template are
    all called [Box], the template wins, also when the header is read
    backwards; an unknown name gives the Invalid handle. *)
Lemma getType_priority_order_witness :
  exists h h',
    getType "Box" sampleSession = Done (h, sampleSession) /\
    kind h = TemplateClass /\
    getType "Box" (reordered (rev sampleAST) sampleSession) =
      Done (h', reordered (rev sampleAST) sampleSession) /\
    kind h' = kind h.
Proof.
  destruct (getType_priority_order "Box" sampleSession)
    as (h & Hrun & Hkind & Horder).
  destruct (Horder (rev sampleAST) (Permutation_rev sampleAST))
    as (h' & Hrun' & Hkind').
  exists h, h'. repeat split; auto.
Defined.

Example getType_unknown_name :
  getType "Missing" sampleSession = Done (CXXType_empty, sampleSession).
Proof. reflexivity. Qed.

(** *** [getTypeSize] *)

Lemma Kind_eqb_eq a b : Kind_eqb a b = true <-> a = b.
Proof. unfold Kind_eqb. apply bool_decide_eq_true. Qed.

Lemma Kind_eqb_neq a b : a <> b -> Kind_eqb a b = false.
Proof. unfold Kind_eqb. apply bool_decide_eq_false. Qed.

(** C5: a size query on a TemplateClass handle (which, like every handle
    the bridge issues, has no size cached) is fatal: it passes the check
    against Invalid, [getQualType] gives the null type for it, and the
    layout query on the null type fails its assertion.  No size comes
    back and the session is gone. *)
Theorem getTypeSize_TemplateClass_fatal (t : CXXType) (s : Session) :
  kind t = TemplateClass ->
  Width (sizeAndAlign t) = 0%N ->
  getTypeSize t s =
    Abort (AssertionFailed "Cannot retrieve a NULL type pointer").
Proof.
  intros Hk Hw. unfold getTypeSize, getQualType. rewrite Hk, Hw. reflexivity.
Qed.

Lemma getTypeSize_TemplateClass_fatal_witness :
  getTypeSize (CXXType_template 3) sampleSession =
    Abort (AssertionFailed "Cannot retrieve a NULL type pointer").
Proof.
  exact (getTypeSize_TemplateClass_fatal (CXXType_template 3) sampleSession
           eq_refl eq_refl).
Defined.

(** The handles [getType] issues have no size cached, and [getTypeSize]
    caches one only after a layout query that returned, which excludes
    TemplateClass handles. *)
Lemma getType_unsized name s h s' :
  getType name s = Done (h, s') -> Width (sizeAndAlign h) = 0%N.
Proof.
  unfold getType. intros H.
  destruct (foundTemplateClass _); [now inversion H|].
  destruct (foundClass _); [now inversion H|].
  destruct (foundEnum _); now inversion H.
Qed.

Lemma getTypeSize_never_sizes_a_template t s n t' s' :
  getTypeSize t s = Done (n, t', s') -> kind t = TemplateClass ->
  t' = t /\ Width (sizeAndAlign t) <> 0%N.
Proof.
  intros H Hk. unfold getTypeSize, getQualType in H. rewrite Hk in H.
  unfold bind in H. cbn in H.
  destruct (Width (sizeAndAlign t) =? 0)%N eqn:Hw; cbn in H.
  - discriminate.
  - apply N.eqb_neq in Hw. inversion H; subst. auto.
Qed.

(** *** [instantiateClassTemplate] *)

Lemma instantiateClassTemplate_guard t args s :
  kind t <> TemplateClass ->
  instantiateClassTemplate t args s = ret CXXType_empty s.
Proof.
  intros Hk. unfold instantiateClassTemplate.
  now rewrite (Kind_eqb_neq _ _ Hk).
Qed.

(** C10: on a handle of any kind but TemplateClass,
    [instantiateClassTemplate] returns the empty handle, whose kind is
    Invalid, and the session it leaves is the session it was given: no
    assertion, no error. *)
Theorem instantiateClassTemplate_not_a_template (t : CXXType)
    (args : list TemplateArgument) (s : Session) :
  kind t <> TemplateClass ->
  exists h,
    instantiateClassTemplate t args s = Done (h, s) /\ kind h = Invalid.
Proof.
  intros Hk. exists CXXType_empty.
  rewrite (instantiateClassTemplate_guard t args s Hk). split; reflexivity.
Qed.

Lemma instantiateClassTemplate_not_a_template_witness :
  exists h,
    instantiateClassTemplate (CXXType_class 2) [TypeArgument (BuiltinTy Int)]
      sampleSession = Done (h, sampleSession) /\
    kind h = Invalid.
Proof.
  apply (instantiateClassTemplate_not_a_template (CXXType_class 2)
           [TypeArgument (BuiltinTy Int)] sampleSession).
  cbn. discriminate.
Defined.

(** What a run of each host entry point tells about the session. *)
Lemma getAs_inv t s d s' :
  getAs t s = Done (d, s') -> decl t = Some d /\ s' = s.
Proof. unfold getAs. destruct (decl t); cbn; intros H; inversion H; auto. Qed.

Lemma getClassTemplate_inv d s t s' :
  getClassTemplate d s = Done (t, s') -> templates s !! d = Some t /\ s' = s.
Proof.
  unfold getClassTemplate.
  destruct (templates s !! d); intros H; inversion H; auto.
Qed.

Lemma getSpecializationDecl_inv d s sd s' :
  getSpecializationDecl d s = Done (sd, s') ->
  specDecls s !! d = Some sd /\ s' = s.
Proof.
  unfold getSpecializationDecl.
  destruct (specDecls s !! d); intros H; inversion H; auto.
Qed.

Lemma getClassTemplate_run d s t :
  templates s !! d = Some t -> getClassTemplate d s = Done (t, s).
Proof. intros H. unfold getClassTemplate. now rewrite H. Qed.

Lemma getSpecializationDecl_run d s sd :
  specDecls s !! d = Some sd -> getSpecializationDecl d s = Done (sd, s).
Proof. intros H. unfold getSpecializationDecl. now rewrite H. Qed.

(** A specialization added under arguments that were not cached is the one
    found under them afterwards. *)
Lemma lookupSpecialization_app args l d :
  lookupSpecialization args l = None ->
  lookupSpecialization args (l ++ [(args, d)]) = Some d.
Proof.
  induction l as [|[k d'] l IH]; cbn.
  - intros _. now rewrite decide_True.
  - destruct (decide (k = args)); [discriminate|auto].
Qed.

(** When the tail of [instantiateClassTemplate] returns, [Decl] has a
    definition, the handle refers to it, and neither a declaration was
    allocated nor a specialization set touched. *)
Lemma complete_inv Decl s h s1 :
  complete Decl s = Done (h, s1) ->
  exists sd Def,
    specDecls s1 !! Decl = Some sd /\ definition sd = Some Def /\
    h = CXXType_specialization Def /\
    templates s1 = templates s /\ nextDecl s1 = nextDecl s.
Proof.
  unfold complete. intros H.
  apply bind_inv in H as (sd0 & ? & H0 & H).
  apply getSpecializationDecl_inv in H0 as [Hsd0 ->].
  apply bind_inv in H as ([] & sa & Hattr & H).
  assert (Ha : exists sda, specDecls sa !! Decl = Some sda /\
                 definition sda = definition sd0 /\
                 templates sa = templates s /\ nextDecl sa = nextDecl s).
  { destruct (specializationKind sd0);
      try (inversion Hattr; subst; eauto 6; fail).
    unfold InstantiateAttrsForDecl in Hattr.
    rewrite (bind_Done _ _ _ _ _ (getSpecializationDecl_run _ _ _ Hsd0)) in Hattr.
    inversion Hattr; subst; clear Hattr. cbn.
    rewrite lookup_insert_eq. eauto 6. }
  destruct Ha as (sda & Hsda & Hdefa & Hta & Hna).
  rewrite (bind_Done _ _ _ _ _ (getSpecializationDecl_run _ _ _ Hsda)) in H.
  apply bind_inv in H as (Def & sb & HDef & H).
  inversion H; subst; clear H.
  destruct (definition sda) as [d|] eqn:Hd.
  - inversion HDef; subst. exists sda, Def. rewrite Hd. auto.
  - apply bind_inv in HDef as (loc & ? & Hloc & HDef).
    inversion Hloc; subst; clear Hloc.
    apply bind_inv in HDef as ([] & ? & Hass & HDef).
    apply assert_inv in Hass as [_ ->].
    apply bind_inv in HDef as ([] & sc & Hinst & HDef).
    apply bind_inv in HDef as (sdc & ? & Hg & HDef).
    apply getSpecializationDecl_inv in Hg as [Hsdc ->].
    destruct (definition sdc) as [d|] eqn:Hdc; [|discriminate].
    inversion HDef; subst; clear HDef.
    exists sdc, Def. repeat split; auto.
    + unfold InstantiateClassTemplateSpecialization in Hinst.
      rewrite (bind_Done _ _ _ _ _ (getSpecializationDecl_run _ _ _ Hsda)) in Hinst.
      apply bind_inv in Hinst as (t & ? & Ht & Hinst).
      apply getClassTemplate_inv in Ht as [_ ->].
      destruct (patternDefined t); inversion Hinst; subst; cbn; congruence.
    + unfold InstantiateClassTemplateSpecialization in Hinst.
      rewrite (bind_Done _ _ _ _ _ (getSpecializationDecl_run _ _ _ Hsda)) in Hinst.
      apply bind_inv in Hinst as (t & ? & Ht & Hinst).
      apply getClassTemplate_inv in Ht as [_ ->].
      destruct (patternDefined t); inversion Hinst; subst; cbn; congruence.
Qed.

(** On a declaration that has a definition the tail returns the handle of
    that definition. *)
Lemma complete_defined Decl s sd Def :
  specDecls s !! Decl = Some sd -> definition sd = Some Def ->
  exists s2, complete Decl s = Done (CXXType_specialization Def, s2) /\
             templates s2 = templates s /\ nextDecl s2 = nextDecl s.
Proof.
  intros Hsd Hdef. unfold complete.
  rewrite (bind_Done _ _ _ _ _ (getSpecializationDecl_run _ _ _ Hsd)).
  assert (Ha : exists sa sda,
            match specializationKind sd with
            | TSK_Undeclared => InstantiateAttrsForDecl Decl
            | _ => ret tt
            end s = Done (tt, sa) /\
            specDecls sa !! Decl = Some sda /\ definition sda = Some Def /\
            templates sa = templates s /\ nextDecl sa = nextDecl s).
  { destruct (specializationKind sd); try (exists s, sd; auto; fail).
    unfold InstantiateAttrsForDecl.
    rewrite (bind_Done _ _ _ _ _ (getSpecializationDecl_run _ _ _ Hsd)).
    eexists _, _. split; [reflexivity|]. cbn. rewrite lookup_insert_eq. auto. }
  destruct Ha as (sa & sda & Hrun & Hsda & Hdefa & Ht & Hn).
  rewrite (bind_Done _ _ _ _ _ Hrun).
  rewrite (bind_Done _ _ _ _ _ (getSpecializationDecl_run _ _ _ Hsda)).
  rewrite Hdefa. cbn. eauto.
Qed.

Lemma instantiateClassTemplate_tail t args :
  kind t = TemplateClass ->
  instantiateClassTemplate t args =
    (ClassTemplate <-- getAs t ;;
     found <-- findSpecialization ClassTemplate args ;;
     Decl <-- match found with
              | Some d => ret d
              | None =>
                  d <-- ClassTemplateSpecializationDecl_Create
                          ClassTemplate args ;;
                  AddSpecialization ClassTemplate d args ;;;
                  ret d
              end ;;
     complete Decl).
Proof.
  intros Hk. unfold instantiateClassTemplate. rewrite Hk. reflexivity.
Qed.

(** After [instantiateClassTemplate] has returned, the specialization is
    cached under its arguments and has a definition, which is what the
    returned handle refers to. *)
Lemma instantiateClassTemplate_caches t args s h s1 :
  kind t = TemplateClass ->
  instantiateClassTemplate t args s = Done (h, s1) ->
  exists T tpl Decl sd Def,
    decl t = Some T /\
    templates s1 !! T = Some tpl /\
    lookupSpecialization args (specializations tpl) = Some Decl /\
    specDecls s1 !! Decl = Some sd /\ definition sd = Some Def /\
    h = CXXType_specialization Def.
Proof.
  intros Hk H. rewrite (instantiateClassTemplate_tail _ _ Hk) in H.
  apply bind_inv in H as (T & ? & HT & H).
  apply getAs_inv in HT as [HT ->].
  apply bind_inv in H as (found & ? & Hfind & H).
  unfold findSpecialization in Hfind.
  apply bind_inv in Hfind as (tpl & ? & Htpl & Hfind).
  apply getClassTemplate_inv in Htpl as [Htpl ->].
  inversion Hfind; subst; clear Hfind.
  apply bind_inv in H as (Decl & sB & HDecl & H).
  apply complete_inv in H as (sd & Def & Hsd & Hdef & -> & Htemplates & _).
  destruct (lookupSpecialization args (specializations tpl)) as [d|] eqn:Hl.
  - inversion HDecl; subst; clear HDecl.
    eexists T, tpl, _, sd, Def. rewrite Htemplates. eauto 10.
  - apply bind_inv in HDecl as (d & sA & Hcreate & HDecl).
    inversion Hcreate; subst; clear Hcreate.
    apply bind_inv in HDecl as ([] & ? & Hadd & HDecl).
    inversion HDecl; subst; clear HDecl.
    unfold AddSpecialization in Hadd.
    apply bind_inv in Hadd as (tpl' & ? & Htpl' & Hadd).
    apply getClassTemplate_inv in Htpl' as [Htpl' ->].
    cbn in Htpl'. rewrite Htpl in Htpl'. inversion Htpl'; subst tpl'.
    inversion Hadd; subst; clear Hadd.
    eexists T, _, _, sd, Def. rewrite Htemplates. cbn.
    rewrite lookup_insert_eq.
    split; [exact HT|]. split; [reflexivity|].
    split; [cbn; now apply lookupSpecialization_app|].
    split; [exact Hsd|]. auto.
Qed.

(** A first instantiation returns: in a session that holds the template
    with a defined pattern, has nothing cached under the arguments and has a
    valid end-of-file location, the call creates the next declaration and
    returns its handle. *)
Lemma instantiateClassTemplate_fresh T tpl args s :
  templates s !! T = Some tpl -> patternDefined tpl = true ->
  lookupSpecialization args (specializations tpl) = None ->
  endOfFile s <> 0 ->
  exists s1,
    instantiateClassTemplate (CXXType_template T) args s =
      Done (CXXType_specialization (nextDecl s), s1) /\
    nextDecl s1 = S (nextDecl s).
Proof.
  intros HT Hdef Hnone Heof.
  apply Nat.eqb_neq in Heof.
  rewrite (instantiateClassTemplate_tail (CXXType_template T) args eq_refl).
  unfold complete, findSpecialization, AddSpecialization,
    ClassTemplateSpecializationDecl_Create, InstantiateAttrsForDecl,
    InstantiateClassTemplateSpecialization, getEndOfFileLocation,
    getSpecializationDecl, getClassTemplate, getAs, freshDecl, assert,
    bind, ret.
  repeat (progress (cbn; rewrite ?lookup_insert_eq, ?HT, ?Hnone, ?Heof, ?Hdef)).
  eexists. split; reflexivity.
Qed.

(** C3: once [instantiateClassTemplate] has returned a handle for an
    argument list, a second call with the same handle and arguments in the
    session the first one left returns the very same handle (the same
    underlying declaration); it allocates no declaration and leaves every
    specialization set as it was. *)
Theorem instantiateClassTemplate_idempotent (t : CXXType)
    (args : list TemplateArgument) (s s1 : Session) (h : CXXType) :
  instantiateClassTemplate t args s = Done (h, s1) ->
  exists s2,
    instantiateClassTemplate t args s1 = Done (h, s2) /\
    nextDecl s2 = nextDecl s1 /\
    templates s2 = templates s1.
Proof.
  intros H. destruct (decide (kind t = TemplateClass)) as [Hk|Hk].
  - destruct (instantiateClassTemplate_caches _ _ _ _ _ Hk H)
      as (T & tpl & Decl & sd & Def & HT & Htpl & Hl & Hsd & Hdef & ->).
    destruct (complete_defined Decl s1 sd Def Hsd Hdef)
      as (s2 & Hrun & Htemplates & Hnext).
    exists s2. repeat split; auto.
    rewrite (instantiateClassTemplate_tail _ _ Hk).
    unfold getAs. rewrite HT. cbn. unfold findSpecialization.
    rewrite (bind_Done _ _ _ _ _ (bind_Done _ _ _ _ _ (getClassTemplate_run _ _ _ Htpl))).
    cbn. rewrite Hl. exact Hrun.
  - rewrite (instantiateClassTemplate_guard t args s Hk) in H.
    inversion H; subst.
    exists s1. repeat split; auto.
    now rewrite (instantiateClassTemplate_guard t args s1 Hk).
Qed.

(** Scenario B of the spec: a one-parameter class template instantiated
    twice with [int]. *)
Lemma instantiateClassTemplate_idempotent_witness :
  exists h s1 s2,
    instantiateClassTemplate (CXXType_template 3)
      [TypeArgument (BuiltinTy Int)] sampleSession = Done (h, s1) /\
    kind h = SpecializedTemplateClass /\
    instantiateClassTemplate (CXXType_template 3)
      [TypeArgument (BuiltinTy Int)] s1 = Done (h, s2) /\
    nextDecl s2 = nextDecl s1 /\ templates s2 = templates s1.
Proof.
  edestruct (instantiateClassTemplate_idempotent (CXXType_template 3)
               [TypeArgument (BuiltinTy Int)] sampleSession)
    as (s2 & H2 & Hn & Ht); [reflexivity|].
  eexists _, _, s2. split; [reflexivity|]. split; [reflexivity|].
  split; [exact H2|]. split; assumption.
Defined.

(** *** [createFunctionArgument] *)

Lemma getFunction_inv d s f s' :
  getFunction d s = Done (f, s') -> functions s !! d = Some f /\ s' = s.
Proof.
  unfold getFunction.
  destruct (functions s !! d); intros H; inversion H; auto.
Qed.

Lemma getQualType_state ty s q s' :
  getQualType ty s = Done (q, s') -> s' = s.
Proof.
  unfold getQualType, getAs.
  destruct (kind ty), (decl ty); cbn; intros H; inversion H; auto.
Qed.

(** C6, amended: when [createFunctionArgument] returns, the parameter list
    of the function is exactly the one parameter it has just created,
    whatever the function held before. *)
Theorem createFunctionArgument_sets_params (name : string) (ty : CXXType)
    (func : DeclId) (s s' : Session) (arg : DeclId) :
  createFunctionArgument name ty func s = Done (arg, s') ->
  getParams func s' = Some [arg].
Proof.
  unfold createFunctionArgument. intros H.
  apply bind_inv in H as (f & ? & Hf & H).
  apply getFunction_inv in Hf as [Hf ->].
  apply bind_inv in H as (q & ? & Hq & H).
  apply getQualType_state in Hq as ->.
  apply bind_inv in H as (a & sA & Ha & H).
  inversion Ha; subst; clear Ha.
  apply bind_inv in H as ([] & sB & Hset & H).
  inversion H; subst; clear H.
  unfold setParams in Hset.
  apply bind_inv in Hset as (f' & ? & Hf' & Hset).
  apply getFunction_inv in Hf' as [Hf' ->].
  apply bind_inv in Hset as ([] & ? & Ha1 & Hset).
  apply assert_inv in Ha1 as [_ ->].
  apply bind_inv in Hset as ([] & ? & Ha2 & Hset).
  apply assert_inv in Ha2 as [_ ->].
  inversion Hset; subst; clear Hset.
  unfold getParams. cbn. now rewrite lookup_insert_eq.
Qed.

Lemma createFunctionArgument_sets_params_witness :
  exists func arg s1 s2,
    instantiateFunction "f" [intType] intType sampleSession =
      Done (func, s1) /\
    createFunctionArgument "a" intType func s1 = Done (arg, s2) /\
    getParams func s2 = Some [arg].
Proof.
  eexists _, _, _, _. split; [reflexivity|].
  refine ((fun H => conj H
             (createFunctionArgument_sets_params "a" intType _ _ _ _ H)) _).
  reflexivity.
Defined.

(** C6, as stated, fails: after two calls on one function its parameter
    list is not the two created parameters in call order. *)
Lemma createFunctionArgument_twice_not_appended :
  ~ exists a b s, twoArguments sampleSession = Done ((a, b, Some [a; b]), s).
Proof.
  intros (a & b & s & H). vm_compute in H. discriminate.
Qed.

(** In the model the second call does not even return: [setParams] finds
    the array of the first call installed. *)
Example createFunctionArgument_twice_aborts :
  twoArguments sampleSession = Abort (AssertionFailed "Already has param info!").
Proof. reflexivity. Qed.

End BridgeFacts.

(** * Further properties

    ** Conversions, constants, addresses and arithmetic
    ([src/mlir/generator.cc]) *)

Section GeneratorOperations.
Import Generator.

(** The operation [typeConversion] picks between two types of one domain
    and different widths. *)
Lemma typeConversion_operation (val : Value) (ty : Ty)
    (b : Builder) (wv wt : N) :
  bitWidth (valType val) = Some wv -> bitWidth ty = Some wt -> wv <> wt ->
  sameDomain (valType val) ty = true ->
  let o := if isInteger ty
           then (if (wv <? wt)%N then SignExtendIOp else TruncateIOp)
           else (if (wv <? wt)%N then FPExtOp else FPTruncOp) in
  typeConversion val ty b =
    Done (resultOf b o ty, emit b o (Some ty) [val] None).
Proof.
  intros Hv Ht Hne Hsame. cbv zeta. unfold typeConversion.
  rewrite (bind_Done _ _ _ _ _ (bitWidth_width _ _ b Hv)).
  rewrite (bind_Done _ _ _ _ _ (bitWidth_width _ _ b Ht)).
  apply N.eqb_neq in Hne. rewrite Hne.
  destruct (valType val), ty; cbn in Hsame; try discriminate; cbn;
    destruct (wv <? wt)%N; reflexivity.
Qed.

(** X1: between two integer types, or two floating types, of different
    widths [typeConversion] emits exactly one operation on [val], typed with
    the target type: a sign extension ([SignExtendIOp], whatever the
    signedness of either type) or a floating extension when the target is
    wider, a truncation when it is narrower. *)
Theorem typeConversion_extends_or_truncates (val : Value) (ty : Ty)
    (b : Builder) (wv wt : N) :
  bitWidth (valType val) = Some wv -> bitWidth ty = Some wt -> wv <> wt ->
  sameDomain (valType val) ty = true ->
  let o := if isInteger ty
           then (if (wv <? wt)%N then SignExtendIOp else TruncateIOp)
           else (if (wv <? wt)%N then FPExtOp else FPTruncOp) in
  typeConversion val ty b =
    Done (resultOf b o ty, emit b o (Some ty) [val] None).
Proof.
  intros Hv Ht Hne Hsame. cbv zeta. unfold typeConversion.
  rewrite (bind_Done _ _ _ _ _ (bitWidth_width _ _ b Hv)).
  rewrite (bind_Done _ _ _ _ _ (bitWidth_width _ _ b Ht)).
  apply N.eqb_neq in Hne. rewrite Hne.
  destruct (valType val), ty; cbn in Hsame; try discriminate; cbn;
    destruct (wv <? wt)%N; reflexivity.
Qed.

(** An unsigned 8-bit value widened to 32 bits is sign-extended. *)
Lemma typeConversion_extends_or_truncates_witness :
  typeConversion (mkValue (BlockArgument 0) (IntegerType 8 Unsigned))
    (IntegerType 32 Unsigned) emptyBuilder =
    Done (resultOf emptyBuilder SignExtendIOp (IntegerType 32 Unsigned),
          emit emptyBuilder SignExtendIOp (Some (IntegerType 32 Unsigned))
            [mkValue (BlockArgument 0) (IntegerType 8 Unsigned)] None).
Proof.
  apply (typeConversion_extends_or_truncates
           (mkValue (BlockArgument 0) (IntegerType 8 Unsigned))
           (IntegerType 32 Unsigned) emptyBuilder 8%N 32%N);
    [reflexivity | reflexivity | discriminate | reflexivity].
Defined.

Lemma getIntOrFloatBitWidth_inv t b w b' :
  getIntOrFloatBitWidth t b = Done (w, b') -> bitWidth t = Some w /\ b' = b.
Proof. destruct t; cbn; intros H; inversion H; auto. Qed.

Lemma create_inv o rty args attr b v b' :
  create o rty args attr b = Done (v, b') ->
  v = resultOf b o rty /\ b' = emit b o (Some rty) args attr.
Proof. unfold create. intros H. inversion H. auto. Qed.

(** Inversion of a conversion that returned. *)
Lemma typeConversion_inv (val : Value) (ty : Ty) (b b' : Builder)
    (v : Value) :
  typeConversion val ty b = Done (v, b') ->
  exists wv wt,
    bitWidth (valType val) = Some wv /\ bitWidth ty = Some wt /\
    ((wv = wt /\ v = val /\ b' = b) \/
     (wv <> wt /\ sameDomain (valType val) ty = true /\
      valType v = ty /\
      exists o, v = resultOf b o ty /\ b' = emit b o (Some ty) [val] None)).
Proof.
  unfold typeConversion. intros H.
  apply bind_inv in H as (wv & ? & Hv & H).
  apply getIntOrFloatBitWidth_inv in Hv as [Hv ->].
  apply bind_inv in H as (wt & ? & Ht & H).
  apply getIntOrFloatBitWidth_inv in Ht as [Ht ->].
  exists wv, wt. split; [exact Hv|]. split; [exact Ht|].
  destruct (wv =? wt)%N eqn:Heq.
  - apply N.eqb_eq in Heq. inversion H; subst. left. auto.
  - apply N.eqb_neq in Heq. right. split; [exact Heq|].
    unfold sameDomain.
    destruct (isInteger (valType val) && isInteger ty) eqn:Hint.
    + split; [reflexivity|].
      destruct (wv <? wt)%N; apply create_inv in H as [-> ->];
        (split; [reflexivity|]); eexists; split; reflexivity.
    + destruct (isFloat (valType val) && isFloat ty) eqn:Hflt;
        [|discriminate].
      split; [reflexivity|].
      destruct (wv <? wt)%N; apply create_inv in H as [-> ->];
        (split; [reflexivity|]); eexists; split; reflexivity.
Qed.

(** X2: whenever [typeConversion] returns, both types have a bit width and
    either the widths are equal, the value comes back as it is and nothing
    is emitted, or the widths differ, the two types are of one domain, and
    the result is the one new operation on [val], of the target type. *)
Theorem typeConversion_returns (val : Value) (ty : Ty) (b b' : Builder)
    (v : Value) :
  typeConversion val ty b = Done (v, b') ->
  exists wv wt,
    bitWidth (valType val) = Some wv /\ bitWidth ty = Some wt /\
    ((wv = wt /\ v = val /\ b' = b) \/
     (wv <> wt /\ sameDomain (valType val) ty = true /\
      valType v = ty /\
      exists o, v = resultOf b o ty /\ b' = emit b o (Some ty) [val] None)).
Proof.
  unfold typeConversion. intros H.
  apply bind_inv in H as (wv & ? & Hv & H).
  apply getIntOrFloatBitWidth_inv in Hv as [Hv ->].
  apply bind_inv in H as (wt & ? & Ht & H).
  apply getIntOrFloatBitWidth_inv in Ht as [Ht ->].
  exists wv, wt. split; [exact Hv|]. split; [exact Ht|].
  destruct (wv =? wt)%N eqn:Heq.
  - apply N.eqb_eq in Heq. inversion H; subst. left. auto.
  - apply N.eqb_neq in Heq. right. split; [exact Heq|].
    unfold sameDomain.
    destruct (isInteger (valType val) && isInteger ty) eqn:Hint.
    + split; [reflexivity|].
      destruct (wv <? wt)%N; apply create_inv in H as [-> ->];
        (split; [reflexivity|]); eexists; split; reflexivity.
    + destruct (isFloat (valType val) && isFloat ty) eqn:Hflt;
        [|discriminate].
      split; [reflexivity|].
      destruct (wv <? wt)%N; apply create_inv in H as [-> ->];
        (split; [reflexivity|]); eexists; split; reflexivity.
Qed.

(** Narrowing a 64-bit floating value to 32 bits. *)
Lemma typeConversion_returns_witness :
  exists v b',
    typeConversion sample_f64 (FloatType F32) emptyBuilder = Done (v, b') /\
    exists wv wt,
      bitWidth (valType sample_f64) = Some wv /\
      bitWidth (FloatType F32) = Some wt /\
      ((wv = wt /\ v = sample_f64 /\ b' = emptyBuilder) \/
       (wv <> wt /\ sameDomain (valType sample_f64) (FloatType F32) = true /\
        valType v = FloatType F32 /\
        exists o, v = resultOf emptyBuilder o (FloatType F32) /\
                  b' = emit emptyBuilder o (Some (FloatType F32))
                         [sample_f64] None)).
Proof.
  eexists _, _.
  refine ((fun H => conj H
             (typeConversion_returns sample_f64 (FloatType F32) emptyBuilder
                _ _ H)) _).
  reflexivity.
Defined.

(** X3: [typePromotion] never narrows an operand: it returns its operands
    untouched, or emits one widening conversion ([SignExtendIOp] or
    [FPExtOp]) of one operand to the type of the other. *)
Theorem typePromotion_only_widens (lhs rhs : Value) (b b' : Builder)
    (l r : Value) :
  typePromotion lhs rhs b = Done ((l, r), b') ->
  (l = lhs /\ r = rhs /\ b' = b) \/
  (exists o, (o = SignExtendIOp \/ o = FPExtOp) /\
     ((l = resultOf b o (valType rhs) /\ r = rhs /\
       b' = emit b o (Some (valType rhs)) [lhs] None) \/
      (l = lhs /\ r = resultOf b o (valType lhs) /\
       b' = emit b o (Some (valType lhs)) [rhs] None))).
Proof.
  unfold typePromotion. intros H.
  destruct (Ty_eqb (valType lhs) (valType rhs)).
  { injection H as <- <- <-. left; auto. }
  apply bind_inv in H as (wl & ? & Hl & H).
  apply getIntOrFloatBitWidth_inv in Hl as [Hl ->].
  apply bind_inv in H as (wr & ? & Hr & H).
  apply getIntOrFloatBitWidth_inv in Hr as [Hr ->].
  destruct (wl <? wr)%N eqn:Hlt.
  - apply bind_inv in H as (l' & b1 & Hconv & H). cbn in H.
    injection H as <- <- <-.
    assert (Hne : wl <> wr) by (apply N.ltb_lt in Hlt; lia).
    destruct (typeConversion_inv _ _ _ _ _ Hconv)
      as (wv & wt & Hv & Ht & [(Heq & _)|(_ & Hsame & _)]).
    { congruence. }
    pose proof (typeConversion_operation lhs (valType rhs) b
                  wl wr Hl Hr Hne Hsame) as Hop.
    cbv zeta in Hop. rewrite Hlt in Hop. rewrite Hop in Hconv.
    injection Hconv as <- <-. right.
    destruct (isInteger (valType rhs));
      [exists SignExtendIOp | exists FPExtOp]; (split; [auto|]); left; auto.
  - apply bind_inv in H as (r' & b1 & Hconv & H). cbn in H.
    injection H as <- <- <-.
    destruct (typeConversion_inv _ _ _ _ _ Hconv)
      as (wv & wt & Hv & Ht & [(Heq & -> & ->)|(Hne & Hsame & _)]).
    { left; auto. }
    assert (wv = wr) by congruence. assert (wt = wl) by congruence. subst.
    pose proof (typeConversion_operation rhs (valType lhs) b
                  wr wl Hr Hl Hne Hsame) as Hop.
    cbv zeta in Hop.
    assert (Hlt' : (wr <? wl)%N = true).
    { apply N.ltb_lt. apply N.ltb_ge in Hlt. lia. }
    rewrite Hlt' in Hop. rewrite Hop in Hconv. injection Hconv as <- <-.
    right.
    destruct (isInteger (valType lhs));
      [exists SignExtendIOp | exists FPExtOp]; (split; [auto|]); right; auto.
Qed.

(** A wide left operand against a narrow right one: the right one is
    widened. *)
Lemma typePromotion_only_widens_witness :
  exists l r b',
    typePromotion sample_i64 sample_i32 emptyBuilder = Done ((l, r), b') /\
    ((l = sample_i64 /\ r = sample_i32 /\ b' = emptyBuilder) \/
     (exists o, (o = SignExtendIOp \/ o = FPExtOp) /\
        ((l = resultOf emptyBuilder o (valType sample_i32) /\
          r = sample_i32 /\
          b' = emit emptyBuilder o (Some (valType sample_i32)) [sample_i64]
                 None) \/
         (l = sample_i64 /\
          r = resultOf emptyBuilder o (valType sample_i64) /\
          b' = emit emptyBuilder o (Some (valType sample_i64)) [sample_i32]
                 None)))).
Proof.
  eexists _, _, _.
  refine ((fun H => conj H
             (typePromotion_only_widens sample_i64 sample_i32 emptyBuilder
                _ _ _ H)) _).
  reflexivity.
Defined.


(** What a constant that was built looks like. *)
Lemma generateConstant_result (ty : Ty) (val : Number) (b b' : Builder)
    (v : Value) :
  generateConstant ty val b = Done (v, b') ->
  valType v = ty /\
  exists o, v = resultOf b o ty /\ b' = emit b o (Some ty) [] (Some val).
Proof.
  unfold generateConstant, createConstantIntOp, createConstantFloatOp.
  destruct ty as [|w [| |]|[| | |]|e|n body|e n], val; cbn; intros H;
    try discriminate;
    injection H as <- <-; (split; [reflexivity|]); eexists; split; reflexivity.
Qed.


(** The zero of f32 is asked for as a [double]. *)
Example generateZero_f32 :
  generateZero (FloatType F32) emptyBuilder =
    Abort (AssertionFailed
             "FloatAttr type doesn't match the type implied by its value").
Proof. reflexivity. Qed.

Example generateZero_unsigned :
  generateZero (IntegerType 32 Unsigned) emptyBuilder =
    Abort (AssertionFailed
             "ConstantIntOp can only have signless integer type values").
Proof. reflexivity. Qed.

(** On every type that is no index, integer or floating type it fails the
    assertion of [generateConstant]. *)
Lemma generateZero_unsupported (ty : Ty) (b : Builder) :
  isIndex ty || isInteger ty || isFloat ty = false ->
  generateZero ty b = Abort (AssertionFailed "Type not supported for zero").
Proof. destruct ty; cbn; intros H; try discriminate; reflexivity. Qed.

(** Every address [generateGEP] returns is the result of a [GEPOp]. *)
Lemma generateGEP_defines_GEPOp addr offset b a b1 :
  generateGEP addr offset b = Done (a, b1) ->
  exists id, valDef a = OpResult id GEPOp.
Proof.
  unfold generateGEP. intros H.
  apply bind_inv in H as (offsetList & ? & _ & H).
  apply bind_inv in H as (len & ? & _ & H).
  apply bind_inv in H as (elemTy & ? & _ & H).
  apply bind_inv in H as (retTy & ? & _ & H).
  apply create_inv in H as [-> _]. eexists. reflexivity.
Qed.

(** X6: address computations do not compose: whatever [generateGEP]
    returns is loaded from and stored to as it is when the offset is zero,
    and any other offset on it fails the assertion. *)
Theorem generateGEP_result_not_reindexed (addr val : Value) (offset : Z)
    (b b1 : Builder) (a : Value) :
  generateGEP addr offset b = Done (a, b1) ->
  generateLoad a 0 b1 = createLoad a b1 /\
  generateStore a val 0 b1 = createStore val a b1 /\
  forall offset', offset' <> 0%Z ->
    generateLoad a offset' b1 =
      Abort (AssertionFailed "Can't take an offset of a GEP") /\
    generateStore a val offset' b1 =
      Abort (AssertionFailed "Can't take an offset of a GEP").
Proof.
  intros H. destruct (generateGEP_defines_GEPOp _ _ _ _ _ H) as [id Hdef].
  unfold generateLoad, generateStore, getDefiningOp. rewrite Hdef. cbn.
  split; [reflexivity|]. split; [reflexivity|].
  intros offset' Hne. apply Z.eqb_neq in Hne. unfold bind, assert.
  rewrite Hne. split; reflexivity.
Qed.

Lemma generateGEP_result_not_reindexed_witness :
  generateLoad intSlotAddress 0 intSlotBuilder =
    createLoad intSlotAddress intSlotBuilder /\
  generateStore intSlotAddress sample_i32 0 intSlotBuilder =
    createStore sample_i32 intSlotAddress intSlotBuilder /\
  forall offset', offset' <> 0%Z ->
    generateLoad intSlotAddress offset' intSlotBuilder =
      Abort (AssertionFailed "Can't take an offset of a GEP") /\
    generateStore intSlotAddress sample_i32 offset' intSlotBuilder =
      Abort (AssertionFailed "Can't take an offset of a GEP").
Proof.
  exact (generateGEP_result_not_reindexed intSlot sample_i32 0 intBuilder
           intSlotBuilder intSlotAddress eq_refl).
Defined.

(** X7: a stack slot for a type a pointer may point to (a signless
    integer, floating or array type) that is neither a pointer nor a
    struct, read back through [generateAutoLoad] with that type (or none)
    expected, gives a value of that type: five operations are emitted, the
    constant one, the slot, the constant [offset], the address and the
    load. *)
Theorem generateAlloca_generateAutoLoad (ty : Ty) (expected : option Ty)
    (offset : Z) (b : Builder) :
  isCompatibleType ty = true ->
  isPointerType ty = false -> isStructType ty = false ->
  (expected = None \/ expected = Some ty) ->
  let b1 := emit b ConstantIntOp (Some I32) [] (Some (IntVal 1)) in
  let slot := resultOf b1 AllocaOp (PointerType ty) in
  let b2 := emit b1 AllocaOp (Some (PointerType ty))
              [resultOf b ConstantIntOp I32] None in
  let b3 := emit b2 ConstantIntOp (Some I32) [] (Some (IntVal offset)) in
  let address := resultOf b3 GEPOp (PointerType ty) in
  let b4 := emit b3 GEPOp (Some (PointerType ty))
              [slot; resultOf b2 ConstantIntOp I32] None in
  (slot <-- generateAlloca ty ;; generateAutoLoad slot expected offset) b =
    Done (resultOf b4 LoadOp ty, emit b4 LoadOp (Some ty) [address] None).
Proof.
  intros Hcompatible Hptr Hstruct Hexp. cbv zeta.
  unfold generateAlloca, PointerType_get, generateAutoLoad, generateLoad,
    generateGEP, isPointer, isStructPointer, getElementType, getDefiningOp,
    createLoad.
  destruct Hexp as [-> | ->];
    repeat (progress (cbn; unfold bind, ret, assert;
                      rewrite ?Hcompatible, ?Hstruct, ?Hptr, ?Ty_eqb_refl));
    reflexivity.
Qed.

(** No pointer to the index type can be built for a slot. *)
Example generateAlloca_index :
  generateAlloca IndexType emptyBuilder =
    Abort (AssertionFailed "invalid pointer element type").
Proof. reflexivity. Qed.

Lemma generateAlloca_generateAutoLoad_witness :
  exists v b',
    (slot <-- generateAlloca I32 ;; generateAutoLoad slot (Some I32) 0)
      emptyBuilder = Done (v, b') /\
    valType v = I32 /\ length (emitted b') = 5.
Proof.
  eexists _, _. split.
  - exact (generateAlloca_generateAutoLoad I32 (Some I32) 0 emptyBuilder
             eq_refl eq_refl eq_refl (or_intror eq_refl)).
  - split; reflexivity.
Defined.

(** X8: [generateAutoLoad] on an address, with an expected type that is no
    pointer type and is not the pointee type, fails the assertion instead
    of loading. *)
Theorem generateAutoLoad_checks_pointee (addr : Value) (elem expected : Ty)
    (offset : Z) (b : Builder) :
  valType addr = PointerType elem ->
  isPointerType expected = false ->
  expected <> elem ->
  generateAutoLoad addr (Some expected) offset b =
    Abort (AssertionFailed "Invalid pointer load").
Proof.
  intros Hty Hexp Hne.
  unfold generateAutoLoad, isPointer, getElementType. rewrite Hty, Hexp.
  cbn. rewrite Ty_eqb_neq by congruence. reflexivity.
Qed.

Lemma generateAutoLoad_checks_pointee_witness :
  generateAutoLoad intSlot (Some (FloatType F32)) 0 intBuilder =
    Abort (AssertionFailed "Invalid pointer load").
Proof.
  apply (generateAutoLoad_checks_pointee intSlot I32 (FloatType F32) 0
           intBuilder); [reflexivity | reflexivity | discriminate].
Defined.

Lemma StringSwitch_plus_inv opName v op :
  StringSwitch_plus opName v = Some op -> opName = "+" /\ op = v.
Proof.
  unfold StringSwitch_plus. destruct (String.eqb opName "+") eqn:E;
    [|discriminate].
  apply String.eqb_eq in E. intros [= <-]. auto.
Qed.

(** X9: [generateArithmetic] returns only for the operator [+], and what it
    returns is the result of an [AddFOp] of type f32 or f64 or of an
    [AddIOp] of an integer type. *)
Theorem generateArithmetic_returns (defaultOffset : Z) (opName : string)
    (lhs rhs : Value) (b b' : Builder) (v : Value) :
  generateArithmetic defaultOffset opName lhs rhs b = Done (v, b') ->
  opName = "+" /\
  ((isF32 (valType v) || isF64 (valType v) = true /\
    exists id, valDef v = OpResult id AddFOp) \/
   (isInteger (valType v) = true /\
    exists id, valDef v = OpResult id AddIOp)).
Proof.
  unfold generateArithmetic. intros H.
  apply bind_inv in H as (l0 & ? & _ & H).
  apply bind_inv in H as (r0 & ? & _ & H).
  apply bind_inv in H as ([l r] & b1 & _ & H). cbn [fst snd] in H.
  destruct (isF32 (valType l) || isF64 (valType l)) eqn:Hf.
  - apply bind_inv in H as (sum & ? & Hsum & H).
    apply create_inv in Hsum as [-> ->].
    destruct (StringSwitch_plus opName _) as [op|] eqn:Hsw; [|discriminate].
    apply StringSwitch_plus_inv in Hsw as [-> ->].
    injection H as <- <-. split; [reflexivity|]. left.
    split; [exact Hf | eexists; reflexivity].
  - apply bind_inv in H as ([] & ? & Hassert & H).
    apply assert_inv in Hassert as [Hint ->].
    apply bind_inv in H as (sum & ? & Hsum & H).
    apply create_inv in Hsum as [-> ->].
    destruct (StringSwitch_plus opName _) as [op|] eqn:Hsw; [|discriminate].
    apply StringSwitch_plus_inv in Hsw as [-> ->].
    injection H as <- <-. split; [reflexivity|]. right.
    split; [exact Hint | eexists; reflexivity].
Qed.

Lemma generateArithmetic_returns_witness :
  exists v b',
    generateArithmetic 0 "+" sample_f32 sample_f64 emptyBuilder =
      Done (v, b') /\
    "+" = "+" /\
    ((isF32 (valType v) || isF64 (valType v) = true /\
      exists id, valDef v = OpResult id AddFOp) \/
     (isInteger (valType v) = true /\
      exists id, valDef v = OpResult id AddIOp)).
Proof.
  eexists _, _.
  refine ((fun H => conj H
             (generateArithmetic_returns 0 "+" sample_f32 sample_f64
                emptyBuilder _ _ H)) _).
  vm_compute; reflexivity.
Defined.

(** On operands that are no pointers the operation is emitted on what
    [typePromotion] returns. *)
Lemma generateArithmetic_values defaultOffset opName lhs rhs b l r b1 :
  isPointerType (valType lhs) = false ->
  isPointerType (valType rhs) = false ->
  typePromotion lhs rhs b = Done ((l, r), b1) ->
  generateArithmetic defaultOffset opName lhs rhs b =
    (if isF32 (valType l) || isF64 (valType l) then
       sum <-- create AddFOp (valType l) [l; r] None ;;
       match StringSwitch_plus opName sum with
       | Some op => ret op
       | None => abort (AssertionFailed "Unknown arithmetic operator")
       end
     else
       assert (isInteger (valType l)) "Bad arithmetic types" ;;;
       sum <-- create AddIOp (valType l) [l; r] None ;;
       match StringSwitch_plus opName sum with
       | Some op => ret op
       | None => abort (AssertionFailed "Unknown arithmetic operator")
       end) b1.
Proof.
  intros Hl Hr Hp. unfold generateArithmetic, isPointer. rewrite Hl, Hr.
  cbn. rewrite (bind_Done _ _ _ _ _ Hp). reflexivity.
Qed.

(** X10: adding two integers of different widths, in either order,
    sign-extends the narrower one to the type of the wider one and emits an
    [AddIOp] of that type on the two, in the order given. *)
Theorem generateArithmetic_widens_integers (defaultOffset : Z)
    (lhs rhs : Value) (b : Builder) (wl wr : N) :
  isInteger (valType lhs) = true -> isInteger (valType rhs) = true ->
  bitWidth (valType lhs) = Some wl -> bitWidth (valType rhs) = Some wr ->
  (wl < wr)%N ->
  let wide := valType rhs in
  let extended := resultOf b SignExtendIOp wide in
  let b1 := emit b SignExtendIOp (Some wide) [lhs] None in
  generateArithmetic defaultOffset "+" lhs rhs b =
    Done (resultOf b1 AddIOp wide,
          emit b1 AddIOp (Some wide) [extended; rhs] None) /\
  generateArithmetic defaultOffset "+" rhs lhs b =
    Done (resultOf b1 AddIOp wide,
          emit b1 AddIOp (Some wide) [rhs; extended] None).
Proof.
  intros Hil Hir Hl Hr Hlt. cbv zeta.
  assert (Hne : wl <> wr) by lia.
  assert (Hsame : sameDomain (valType lhs) (valType rhs) = true)
    by (unfold sameDomain; now rewrite Hil, Hir).
  assert (Hpl : isPointerType (valType lhs) = false)
    by (destruct (valType lhs); cbn in *; congruence).
  assert (Hpr : isPointerType (valType rhs) = false)
    by (destruct (valType rhs); cbn in *; congruence).
  assert (Hty : Ty_eqb (valType lhs) (valType rhs) = false)
    by (apply Ty_eqb_neq; eapply bitWidth_neq; eauto).
  assert (Hty' : Ty_eqb (valType rhs) (valType lhs) = false)
    by (apply Ty_eqb_neq; eapply bitWidth_neq; eauto).
  pose proof (typeConversion_operation lhs (valType rhs) b wl wr
                Hl Hr Hne Hsame) as Hconv.
  cbv zeta in Hconv. rewrite Hir in Hconv.
  apply N.ltb_lt in Hlt as Hltb. rewrite Hltb in Hconv.
  assert (Hnf : isF32 (valType rhs) || isF64 (valType rhs) = false)
    by (destruct (valType rhs); cbn in *; congruence).
  split.
  - rewrite (generateArithmetic_values _ _ _ _ _
               (resultOf b SignExtendIOp (valType rhs)) rhs
               (emit b SignExtendIOp (Some (valType rhs)) [lhs] None)
               Hpl Hpr).
    + cbn [valType resultOf]. rewrite Hnf, Hir. reflexivity.
    + unfold typePromotion. rewrite Hty.
      rewrite (bind_Done _ _ _ _ _ (bitWidth_width _ _ b Hl)).
      rewrite (bind_Done _ _ _ _ _ (bitWidth_width _ _ b Hr)).
      rewrite Hltb. now rewrite (bind_Done _ _ _ _ _ Hconv).
  - rewrite (generateArithmetic_values _ _ _ _ _
               rhs (resultOf b SignExtendIOp (valType rhs))
               (emit b SignExtendIOp (Some (valType rhs)) [lhs] None)
               Hpr Hpl).
    + rewrite Hnf, Hir. reflexivity.
    + unfold typePromotion. rewrite Hty'.
      rewrite (bind_Done _ _ _ _ _ (bitWidth_width _ _ b Hr)).
      rewrite (bind_Done _ _ _ _ _ (bitWidth_width _ _ b Hl)).
      assert (Hge : (wr <? wl)%N = false) by (apply N.ltb_ge; lia).
      rewrite Hge. now rewrite (bind_Done _ _ _ _ _ Hconv).
Qed.

(** An i32 and an i64, added in both orders. *)
Lemma generateArithmetic_widens_integers_witness :
  let wide := valType sample_i64 in
  let extended := resultOf emptyBuilder SignExtendIOp wide in
  let b1 := emit emptyBuilder SignExtendIOp (Some wide) [sample_i32] None in
  generateArithmetic 0 "+" sample_i32 sample_i64 emptyBuilder =
    Done (resultOf b1 AddIOp wide,
          emit b1 AddIOp (Some wide) [extended; sample_i64] None) /\
  generateArithmetic 0 "+" sample_i64 sample_i32 emptyBuilder =
    Done (resultOf b1 AddIOp wide,
          emit b1 AddIOp (Some wide) [sample_i64; extended] None).
Proof.
  apply (generateArithmetic_widens_integers 0 sample_i32 sample_i64
           emptyBuilder 32%N 64%N);
    [reflexivity | reflexivity | reflexivity | reflexivity | reflexivity].
Defined.

(** X11: on two operands of one type that is no pointer type,
    [generateArithmetic] emits a single [AddFOp] (f32, f64) or [AddIOp]
    (integers) for the operator [+], fails the unknown-operator assertion
    for any other operator, and fails the bad-types assertion for every
    other type, the 16-bit floating types and the index type included. *)
Theorem generateArithmetic_same_type (defaultOffset : Z) (opName : string)
    (lhs rhs : Value) (b : Builder) :
  valType lhs = valType rhs ->
  isPointerType (valType lhs) = false ->
  let ty := valType lhs in
  let o := if isF32 ty || isF64 ty then AddFOp else AddIOp in
  generateArithmetic defaultOffset opName lhs rhs b =
    if isF32 ty || isF64 ty || isInteger ty then
      if String.eqb opName "+"
      then Done (resultOf b o ty, emit b o (Some ty) [lhs; rhs] None)
      else Abort (AssertionFailed "Unknown arithmetic operator")
    else Abort (AssertionFailed "Bad arithmetic types").
Proof.
  intros Heq Hp. cbv zeta.
  assert (Hp' : isPointerType (valType rhs) = false) by congruence.
  rewrite (generateArithmetic_values _ _ _ _ _ lhs rhs b Hp Hp').
  2:{ unfold typePromotion. rewrite Heq, Ty_eqb_refl. reflexivity. }
  unfold StringSwitch_plus.
  destruct (isF32 (valType lhs) || isF64 (valType lhs)) eqn:Hf; cbn.
  - unfold bind. cbn. destruct (String.eqb opName "+"); reflexivity.
  - destruct (isInteger (valType lhs)); cbn; [|reflexivity].
    unfold bind. cbn. destruct (String.eqb opName "+"); reflexivity.
Qed.

Lemma generateArithmetic_same_type_witness :
  generateArithmetic 0 "+"
    (mkValue (BlockArgument 0) (FloatType F16))
    (mkValue (BlockArgument 1) (FloatType F16)) emptyBuilder =
    Abort (AssertionFailed "Bad arithmetic types").
Proof.
  exact (generateArithmetic_same_type 0 "+"
           (mkValue (BlockArgument 0) (FloatType F16))
           (mkValue (BlockArgument 1) (FloatType F16)) emptyBuilder
           eq_refl eq_refl).
Defined.

End GeneratorOperations.

(** ** String constants and functions ([src/mlir/generator.cc]) *)

Section GeneratorModule.
Import Generator.

Lemma to_string_inj n m : to_string n = to_string m -> n = m.
Proof.
  unfold to_string. intros H. apply DecimalN.Unsigned.to_uint_inj.
  assert (Hs : Some (N.to_uint n) = Some (N.to_uint m)).
  { rewrite <- !DecimalString.NilEmpty.usu. now rewrite H. }
  congruence.
Qed.

Lemma auto_name_inj n m :
  ("_string" ++ to_string n)%string = ("_string" ++ to_string m)%string ->
  n = m.
Proof. cbn. intros [= H]. now apply to_string_inj. Qed.

Lemma increment_changes n : ((n + 1) mod size_t_modulus)%N <> n.
Proof.
  unfold size_t_modulus. intros H.
  destruct (N.lt_ge_cases (n + 1) (2 ^ 64)) as [Hlt|Hge].
  - rewrite N.mod_small in H by exact Hlt. lia.
  - assert (Hb : ((n + 1) mod 2 ^ 64 < 2 ^ 64)%N) by (apply N.mod_lt; lia).
    rewrite H in Hb.
    assert (n + 1 = 2 ^ 64)%N by lia.
    rewrite H0 in H. rewrite N.Div0.mod_same in H. subst n. cbn in H0. lia.
Qed.

(** What a call without a name does: the global goes to the end of the
    module under the generated name, the counter moves on, and the address
    is taken in the current block. *)
Lemma generateConstantString_unnamed str g :
  let global := stringGlobal ("_string" ++ to_string (incr g)) str in
  exists g',
    generateConstantString str "" g =
      Done (resultOf (builder g) AddressOfOp (PointerType (globalType global)),
            g') /\
    moduleBody g' = moduleBody g ++ [GlobalSymbol global] /\
    incr g' = ((incr g + 1) mod size_t_modulus)%N /\
    symbolRefs g' !! nextId (builder g) = Some (globalName global) /\
    builder g' =
      emit (builder g) AddressOfOp (Some (PointerType (globalType global)))
        [] None.
Proof.
  cbv zeta.
  unfold generateConstantString, bind, post_increment_incr, push_back,
    createAddressOf, ret, create. cbn.
  eexists. split; [reflexivity|]. cbn.
  rewrite lookup_insert_eq. auto.
Qed.

(** What a call with a name does: the counter stays. *)
Lemma generateConstantString_named str name g :
  name <> "" ->
  let global := stringGlobal name str in
  exists g',
    generateConstantString str name g =
      Done (resultOf (builder g) AddressOfOp (PointerType (globalType global)),
            g') /\
    moduleBody g' = moduleBody g ++ [GlobalSymbol global] /\
    incr g' = incr g /\
    symbolRefs g' !! nextId (builder g) = Some (globalName global) /\
    builder g' =
      emit (builder g) AddressOfOp (Some (PointerType (globalType global)))
        [] None.
Proof.
  intros Hne. cbv zeta. apply String.eqb_neq in Hne.
  unfold generateConstantString. rewrite Hne.
  unfold bind, push_back, createAddressOf, ret, create. cbn.
  eexists. split; [reflexivity|]. cbn.
  rewrite lookup_insert_eq. auto.
Qed.

(** X12: the generated name is a function of the counter alone, and an
    injective one: two unnamed calls made at different values of the
    counter, on whatever strings, add globals with different names. *)
Theorem generateConstantString_auto_names_differ (str1 str2 : string)
    (g1 g2 : State) :
  incr g1 <> incr g2 ->
  exists v1 g1' v2 g2' global1 global2,
    generateConstantString str1 "" g1 = Done (v1, g1') /\
    generateConstantString str2 "" g2 = Done (v2, g2') /\
    moduleBody g1' = moduleBody g1 ++ [GlobalSymbol global1] /\
    moduleBody g2' = moduleBody g2 ++ [GlobalSymbol global2] /\
    globalName global1 <> globalName global2.
Proof.
  intros Hne.
  destruct (generateConstantString_unnamed str1 g1) as (g1' & H1 & Hm1 & _).
  destruct (generateConstantString_unnamed str2 g2) as (g2' & H2 & Hm2 & _).
  eexists _, g1', _, g2', _, _.
  split; [exact H1|]. split; [exact H2|].
  split; [exact Hm1|]. split; [exact Hm2|].
  cbn. intros [= H]. apply to_string_inj in H. contradiction.
Qed.

Lemma generateConstantString_auto_names_differ_witness :
  exists v1 g1' v2 g2' global1 global2,
    generateConstantString "a" "" emptyState = Done (v1, g1') /\
    generateConstantString "a" "" laterState = Done (v2, g2') /\
    moduleBody g1' = moduleBody emptyState ++ [GlobalSymbol global1] /\
    moduleBody g2' = moduleBody laterState ++ [GlobalSymbol global2] /\
    globalName global1 <> globalName global2.
Proof.
  apply (generateConstantString_auto_names_differ "a" "a" emptyState
           laterState).
  discriminate.
Defined.

(** X13: two unnamed calls in a row, on whatever strings (the same string
    included: nothing is shared), append two globals to the module, in call
    order, each holding its string, under two different names; this holds
    at every value of the counter, the last one before it wraps around
    included. *)
Theorem generateConstantString_consecutive (str1 str2 : string) (g : State) :
  exists v1 g1 v2 g2 global1 global2,
    generateConstantString str1 "" g = Done (v1, g1) /\
    generateConstantString str2 "" g1 = Done (v2, g2) /\
    moduleBody g2 =
      moduleBody g ++ [GlobalSymbol global1; GlobalSymbol global2] /\
    globalValue global1 = str1 /\ globalValue global2 = str2 /\
    globalName global1 <> globalName global2.
Proof.
  destruct (generateConstantString_unnamed str1 g)
    as (g1 & H1 & Hm1 & Hi1 & _).
  destruct (generateConstantString_unnamed str2 g1)
    as (g2 & H2 & Hm2 & _).
  eexists _, g1, _, g2, _, _.
  split; [exact H1|]. split; [exact H2|].
  split; [rewrite Hm2, Hm1, <- app_assoc; reflexivity|].
  split; [reflexivity|]. split; [reflexivity|].
  cbn. intros [= H]. apply to_string_inj in H.
  rewrite Hi1 in H. symmetry in H. now apply increment_changes in H.
Qed.

(** X14: a name the caller gives is not checked against the generated
    names: after a call under the name the counter would generate next, the
    next unnamed call adds a second global under that very name. *)
Theorem generateConstantString_name_collision (str1 str2 : string)
    (g : State) :
  let name := ("_string" ++ to_string (incr g))%string in
  exists v1 g1 v2 g2 global1 global2,
    generateConstantString str1 name g = Done (v1, g1) /\
    generateConstantString str2 "" g1 = Done (v2, g2) /\
    moduleBody g2 =
      moduleBody g ++ [GlobalSymbol global1; GlobalSymbol global2] /\
    globalValue global1 = str1 /\ globalValue global2 = str2 /\
    globalName global1 = name /\ globalName global2 = name.
Proof.
  cbv zeta.
  destruct (generateConstantString_named str1
              ("_string" ++ to_string (incr g))%string g)
    as (g1 & H1 & Hm1 & Hi1 & _); [discriminate|].
  destruct (generateConstantString_unnamed str2 g1)
    as (g2 & H2 & Hm2 & _).
  eexists _, g1, _, g2, _, _.
  split; [exact H1|]. split; [exact H2|].
  split; [rewrite Hm2, Hm1, <- app_assoc; reflexivity|].
  split; [reflexivity|]. split; [reflexivity|].
  split; [reflexivity|]. cbn. now rewrite Hi1.
Qed.

Lemma storeBlock_other g func :
  insertionPoint g <> Some func ->
  storeBlock g !! func = functionOps g !! func.
Proof.
  unfold storeBlock. intros Hne.
  destruct (insertionPoint g) as [cur|]; [|reflexivity].
  destruct (functionOps g !! cur) as [f|]; [|reflexivity].
  destruct (funcBlocks f); [reflexivity|].
  apply lookup_insert_ne. congruence.
Qed.

Lemma storeBlock_name g func :
  funcName <$> storeBlock g !! func = funcName <$> functionOps g !! func.
Proof.
  unfold storeBlock.
  destruct (insertionPoint g) as [cur|]; [|reflexivity].
  destruct (functionOps g !! cur) as [f|] eqn:Hf; [|reflexivity].
  destruct (funcBlocks f); [reflexivity|].
  destruct (decide (cur = func)) as [->|Hne].
  - rewrite lookup_insert_eq, Hf. reflexivity.
  - now rewrite lookup_insert_ne.
Qed.

Lemma storeBlock_None g func :
  functionOps g !! func = None -> storeBlock g !! func = None.
Proof.
  intros H. pose proof (storeBlock_name g func) as Hn. rewrite H in Hn.
  destruct (storeBlock g !! func); [discriminate|reflexivity].
Qed.

Lemma lookupSymbolIn_ext g g' name body :
  (forall sym, In sym body -> symbolName g' sym = symbolName g sym) ->
  lookupSymbolIn g' name body = lookupSymbolIn g name body.
Proof.
  induction body as [|sym rest IH]; intros H; cbn; [reflexivity|].
  rewrite (H sym (or_introl eq_refl)).
  rewrite IH by (intros; apply H; now right). reflexivity.
Qed.

(** On a name the module declares without a body: the declaration itself
    gets the entry block. *)
Lemma generateEmptyFunction_declared name types retTy g func f :
  lookupSymbol_FuncOp name g = Some func ->
  functionOps g !! func = Some f ->
  funcBlocks f = [] ->
  insertionPoint g <> Some func ->
  exists g',
    generateEmptyFunction name types retTy g = Done (func, g') /\
    functionOps g' !! func = Some (withEntryBlock f) /\
    insertionPoint g' = Some func /\
    emitted (builder g') = [] /\
    moduleBody g' = moduleBody g /\
    nextFunction g' = nextFunction g /\
    lookupSymbol_FuncOp name g' = Some func.
Proof.
  intros Hlook Hf Hblocks Hins.
  unfold generateEmptyFunction, bind, addEntryBlock, setInsertionPointToStart,
    ret. cbn. rewrite Hlook. cbn. rewrite Hf, Hblocks. cbn.
  eexists. split; [reflexivity|]. cbn.
  split.
  { rewrite storeBlock_other by exact Hins. cbn.
    now rewrite lookup_insert_eq. }
  repeat (split; [reflexivity|]).
  unfold lookupSymbol_FuncOp in *. cbn.
  erewrite lookupSymbolIn_ext; [exact Hlook|].
  intros [x|global] _; cbn; [|reflexivity].
  rewrite storeBlock_name. cbn.
  destruct (decide (x = func)) as [->|Hne].
  - now rewrite lookup_insert_eq, Hf.
  - now rewrite lookup_insert_ne by congruence.
Qed.

(** On a function that has a body already. *)
Lemma generateEmptyFunction_rejects_defined name types retTy g func f :
  lookupSymbol_FuncOp name g = Some func ->
  functionOps g !! func = Some f ->
  funcBlocks f <> [] ->
  generateEmptyFunction name types retTy g =
    Abort (AssertionFailed "function already has an entry block").
Proof.
  intros Hlook Hf Hblocks.
  unfold generateEmptyFunction, bind, addEntryBlock, ret. cbn.
  rewrite Hlook. cbn. rewrite Hf.
  destruct (funcBlocks f); [contradiction|reflexivity].
Qed.

(** X15: on a name the module declares as a function without a body,
    [generateEmptyFunction] makes no new function and ignores [types] and
    [retTy]: the declaration keeps its own signature and visibility and
    gets an entry block with one argument per declared input; the builder
    then stands at the start of that block. *)
Theorem generateEmptyFunction_reuses_declaration (name : string)
    (types retTy : list Ty) (g : State) (func : nat) (f : FuncOp) :
  lookupSymbol_FuncOp name g = Some func ->
  functionOps g !! func = Some f ->
  funcBlocks f = [] ->
  insertionPoint g <> Some func ->
  exists g',
    generateEmptyFunction name types retTy g = Done (func, g') /\
    functionOps g' !! func = Some (withEntryBlock f) /\
    insertionPoint g' = Some func /\
    emitted (builder g') = [] /\
    moduleBody g' = moduleBody g /\
    nextFunction g' = nextFunction g.
Proof.
  intros Hlook Hf Hblocks Hins.
  destruct (generateEmptyFunction_declared name types retTy g func f
              Hlook Hf Hblocks Hins)
    as (g' & H & Hfn & Hi & He & Hm & Hn & _).
  exists g'. auto 7.
Qed.

(** [puts], declared with a pointer parameter, asked for with none. *)
Lemma generateEmptyFunction_reuses_declaration_witness :
  exists g',
    generateEmptyFunction "puts" [] [] putsState = Done (0, g') /\
    functionOps g' !! 0 = Some (withEntryBlock putsDeclaration) /\
    insertionPoint g' = Some 0 /\
    emitted (builder g') = [] /\
    moduleBody g' = moduleBody putsState /\
    nextFunction g' = nextFunction putsState.
Proof.
  apply (generateEmptyFunction_reuses_declaration "puts" [] [] putsState 0
           putsDeclaration);
    [reflexivity | reflexivity | reflexivity | discriminate].
Defined.

(** X16: a declared function is given a body once: after a call on a name
    the module declares without a body, a second call on that name, with
    whatever types, fails the assertion of [addEntryBlock]. *)
Theorem generateEmptyFunction_defines_once (name : string)
    (types retTy types' retTy' : list Ty) (g : State) (func : nat)
    (f : FuncOp) :
  lookupSymbol_FuncOp name g = Some func ->
  functionOps g !! func = Some f ->
  funcBlocks f = [] ->
  insertionPoint g <> Some func ->
  exists g',
    generateEmptyFunction name types retTy g = Done (func, g') /\
    generateEmptyFunction name types' retTy' g' =
      Abort (AssertionFailed "function already has an entry block").
Proof.
  intros Hlook Hf Hblocks Hins.
  destruct (generateEmptyFunction_declared name types retTy g func f
              Hlook Hf Hblocks Hins)
    as (g' & H & Hfn & _ & _ & _ & _ & Hlook').
  exists g'. split; [exact H|].
  apply (generateEmptyFunction_rejects_defined name types' retTy' g' func
           (withEntryBlock f) Hlook' Hfn).
  discriminate.
Qed.

Lemma generateEmptyFunction_defines_once_witness :
  exists g',
    generateEmptyFunction "puts" [PointerType I8] [I32] putsState =
      Done (0, g') /\
    generateEmptyFunction "puts" [PointerType I8] [I32] g' =
      Abort (AssertionFailed "function already has an entry block").
Proof.
  apply (generateEmptyFunction_defines_once "puts" [PointerType I8] [I32]
           [PointerType I8] [I32] putsState 0 putsDeclaration);
    [reflexivity | reflexivity | reflexivity | discriminate].
Defined.

(** On a name the module does not declare: a new public function with the
    entry block, which the module still does not hold. *)
Lemma generateEmptyFunction_fresh name types retTy g :
  allocated g ->
  lookupSymbol_FuncOp name g = None ->
  exists g',
    generateEmptyFunction name types retTy g = Done (nextFunction g, g') /\
    functionOps g' !! nextFunction g =
      Some (mkFuncOp name types retTy Public [mkBlock types []]) /\
    insertionPoint g' = Some (nextFunction g) /\
    emitted (builder g') = [] /\
    moduleBody g' = moduleBody g /\
    lookupSymbol_FuncOp name g' = None /\
    nextFunction g' = S (nextFunction g) /\
    allocated g'.
Proof.
  intros (Hfree & Hbody & Hins) Hlook.
  unfold generateEmptyFunction, bind, generateProto, addEntryBlock,
    setInsertionPointToStart, ret. cbn. rewrite Hlook. cbn.
  rewrite lookup_insert_eq. cbn.
  eexists. split; [reflexivity|]. cbn.
  assert (Hcur : insertionPoint g <> Some (nextFunction g)).
  { intros H. apply Hins in H. lia. }
  assert (Hnew : forall func,
            func <> nextFunction g ->
            funcName <$>
              storeBlock
                {| builder := builder g; insertionPoint := insertionPoint g;
                   symbolRefs := symbolRefs g;
                   functionOps :=
                     <[nextFunction g :=
                         {| funcName := name; funcInputs := types;
                            funcResults := retTy; funcVisibility := Public;
                            funcBlocks := [mkBlock types []] |}]>
                       (<[nextFunction g :=
                            {| funcName := name; funcInputs := types;
                               funcResults := retTy;
                               funcVisibility := Public;
                               funcBlocks := [] |}]> (functionOps g));
                   nextFunction := S (nextFunction g);
                   moduleBody := moduleBody g; incr := incr g |} !! func =
            funcName <$> functionOps g !! func).
  { intros func Hne. rewrite storeBlock_name. cbn.
    now rewrite !lookup_insert_ne by congruence. }
  split.
  { rewrite storeBlock_other by exact Hcur. cbn.
    now rewrite lookup_insert_eq. }
  split; [reflexivity|]. split; [reflexivity|]. split; [reflexivity|].
  split.
  { unfold lookupSymbol_FuncOp in *. cbn.
    erewrite lookupSymbolIn_ext; [exact Hlook|].
    intros [func|global] Hin; cbn; [|reflexivity].
    apply Hnew. apply Hbody in Hin. lia. }
  split; [reflexivity|].
  split; [|split]; cbn.
  - intros func Hge. apply storeBlock_None. cbn.
    rewrite !lookup_insert_ne by lia. apply Hfree. lia.
  - intros func Hin. apply Hbody in Hin. lia.
  - intros func [= <-]. lia.
Qed.

(** X17: on a name the module does not declare, [generateEmptyFunction]
    makes a public function of the given signature with its entry block and
    does not add it to the module: the module body is as before and the
    name is still not found afterwards. *)
Theorem generateEmptyFunction_does_not_register (name : string)
    (types retTy : list Ty) (g : State) :
  allocated g ->
  lookupSymbol_FuncOp name g = None ->
  exists func g',
    generateEmptyFunction name types retTy g = Done (func, g') /\
    functionOps g' !! func =
      Some (mkFuncOp name types retTy Public [mkBlock types []]) /\
    insertionPoint g' = Some func /\
    moduleBody g' = moduleBody g /\
    lookupSymbol_FuncOp name g' = None.
Proof.
  intros Halloc Hlook.
  destruct (generateEmptyFunction_fresh name types retTy g Halloc Hlook)
    as (g' & H & Hf & Hi & _ & Hm & Hl & _).
  exists (nextFunction g), g'. auto.
Qed.

Lemma allocated_emptyState : allocated emptyState.
Proof.
  split; [|split].
  - intros func _. apply lookup_empty.
  - intros func [].
  - intros func H. discriminate H.
Defined.

Lemma generateEmptyFunction_does_not_register_witness :
  exists func g',
    generateEmptyFunction "main" [] [I32] emptyState = Done (func, g') /\
    functionOps g' !! func =
      Some (mkFuncOp "main" [] [I32] Public [mkBlock [] []]) /\
    insertionPoint g' = Some func /\
    moduleBody g' = moduleBody emptyState /\
    lookupSymbol_FuncOp "main" g' = None.
Proof.
  apply (generateEmptyFunction_does_not_register "main" [] [I32] emptyState).
  - exact allocated_emptyState.
  - reflexivity.
Defined.

(** X18: so two calls in a row on one undeclared name both return: they
    make two different functions of that name, each with its own signature
    and entry block, and the module holds neither. *)
Theorem generateEmptyFunction_twice (name : string)
    (types retTy types' retTy' : list Ty) (g : State) :
  allocated g ->
  lookupSymbol_FuncOp name g = None ->
  exists f1 g1 f2 g2,
    generateEmptyFunction name types retTy g = Done (f1, g1) /\
    generateEmptyFunction name types' retTy' g1 = Done (f2, g2) /\
    f1 <> f2 /\
    functionOps g2 !! f1 =
      Some (mkFuncOp name types retTy Public [mkBlock types []]) /\
    functionOps g2 !! f2 =
      Some (mkFuncOp name types' retTy' Public [mkBlock types' []]) /\
    moduleBody g2 = moduleBody g.
Proof.
  intros Halloc Hlook.
  destruct (generateEmptyFunction_fresh name types retTy g Halloc Hlook)
    as (g1 & H1 & Hf1 & Hi & He & Hm1 & Hl1 & Hn1 & Ha1).
  destruct (generateEmptyFunction_fresh name types' retTy' g1 Ha1 Hl1)
    as (g2 & H2 & Hf2 & _ & _ & Hm2 & _ & _ & _).
  exists (nextFunction g), g1, (nextFunction g1), g2.
  split; [exact H1|]. split; [exact H2|].
  split; [lia|]. split; [|split; [exact Hf2 | congruence]].
  (* the first function, after the second call stored its block *)
  revert H2. unfold generateEmptyFunction, bind, generateProto,
    addEntryBlock, setInsertionPointToStart, ret. cbn. rewrite Hl1. cbn.
  rewrite lookup_insert_eq. cbn. intros [= <-]. cbn.
  unfold storeBlock. cbn. rewrite Hi.
  rewrite !lookup_insert_ne by lia. rewrite Hf1. cbn.
  rewrite lookup_insert_eq, He. reflexivity.
Qed.

Lemma generateEmptyFunction_twice_witness :
  exists f1 g1 f2 g2,
    generateEmptyFunction "main" [] [I32] emptyState = Done (f1, g1) /\
    generateEmptyFunction "main" [I32] [] g1 = Done (f2, g2) /\
    f1 <> f2 /\
    functionOps g2 !! f1 =
      Some (mkFuncOp "main" [] [I32] Public [mkBlock [] []]) /\
    functionOps g2 !! f2 =
      Some (mkFuncOp "main" [I32] [] Public [mkBlock [I32] []]) /\
    moduleBody g2 = moduleBody emptyState.
Proof.
  apply (generateEmptyFunction_twice "main" [] [I32] [I32] [] emptyState).
  - exact allocated_emptyState.
  - reflexivity.
Defined.

End GeneratorModule.

(** ** Sizes, functions, statements and specializations
    ([src/ffi/CXXInterface.h]) *)

Section BridgeSessions.
Import CXXInterface.

(** What [getQualType] returns, kind by kind. *)
Lemma getQualType_inv ty s q s' :
  getQualType ty s = Done (q, s') ->
  s' = s /\
  match kind ty with
  | Invalid | TemplateClass => q = None
  | SpecializedTemplateClass | Class =>
      exists d, decl ty = Some d /\ q = Some (RecordType d)
  | Enum => exists d, decl ty = Some d /\ q = Some (EnumType d)
  | Builtin => q = typeForBuiltin (builtTypeKind ty)
  end.
Proof.
  unfold getQualType, getAs.
  destruct (kind ty), (decl ty); cbn; intros H; inversion H; eauto.
Qed.

(** X19: the two switches over the kind agree: [createTemplateArgumentForType]
    wraps exactly the type [getQualType] gives for the handle, gives the
    null argument where [getQualType] gives the null type, and fails where
    it fails; neither changes the session. *)
Theorem createTemplateArgumentForType_getQualType (t : CXXType)
    (s : Session) :
  match getQualType t s with
  | Done (Some q, _) =>
      createTemplateArgumentForType t s = Done (TypeArgument q, s)
  | Done (None, _) =>
      createTemplateArgumentForType t s = Done (NullArgument, s)
  | Abort f => createTemplateArgumentForType t s = Abort f
  end.
Proof.
  unfold getQualType, createTemplateArgumentForType, getAs, typeForBuiltin.
  destruct (kind t), (decl t), (builtTypeKind t); reflexivity.
Qed.

(** A handle that carries a size is answered from the handle. *)
Lemma getTypeSize_cached t s :
  kind t <> Invalid -> Width (sizeAndAlign t) <> 0%N ->
  getTypeSize t s = Done ((Width (sizeAndAlign t) / 8)%N, t, s).
Proof.
  intros Hk Hw. unfold getTypeSize.
  rewrite (Kind_eqb_neq _ _ Hk). apply N.eqb_neq in Hw.
  cbn. unfold bind. cbn. rewrite Hw. reflexivity.
Qed.

(** A handle that carries none asks the host. *)
Lemma getTypeSize_query t s :
  kind t <> Invalid -> Width (sizeAndAlign t) = 0%N ->
  getTypeSize t s =
    (ty <-- getQualType t ;;
     info <-- getTypeInfo ty ;;
     ret ((Width info / 8)%N,
          mkCXXType (kind t) (builtTypeKind t) (decl t) info)) s.
Proof.
  intros Hk Hw. unfold getTypeSize.
  rewrite (Kind_eqb_neq _ _ Hk), Hw. cbn. unfold bind. cbn.
  destruct (getQualType t s) as [[q s1]|]; [|reflexivity].
  destruct (getTypeInfo q s1) as [[i s2]|]; reflexivity.
Qed.

(** The handles [getTypeSize] answers on. *)
Lemma getTypeSize_returns_when (t : CXXType) (s : Session) :
  (exists r, getTypeSize t s = Done r) <->
  kind t <> Invalid /\
  (Width (sizeAndAlign t) <> 0%N \/
   (kind t <> TemplateClass /\
    (needsDeclaration (kind t) = true -> decl t <> None))).
Proof.
  split.
  - intros [[[n t'] s'] H].
    assert (Hk : kind t <> Invalid).
    { intros Hk. unfold getTypeSize in H. rewrite Hk in H. discriminate. }
    split; [exact Hk|].
    destruct (N.eq_dec (Width (sizeAndAlign t)) 0%N) as [Hw|Hw]; [|now left].
    right. rewrite (getTypeSize_query t s Hk Hw) in H.
    apply bind_inv in H as (q & ? & Hq & H).
    apply getQualType_inv in Hq as [-> Hq].
    apply bind_inv in H as (info & ? & Hinfo & _).
    unfold getTypeInfo in Hinfo. destruct q as [q|]; [|discriminate].
    destruct (kind t) eqn:Ek; cbn in *; try discriminate;
      (split; [discriminate|]); intros Hn; try discriminate;
      destruct Hq as (d & Hd & _); congruence.
  - intros [Hk [Hw|[Ht Hd]]].
    + eexists. now apply getTypeSize_cached.
    + destruct (N.eq_dec (Width (sizeAndAlign t)) 0%N) as [Hw|Hw];
        [|eexists; now apply getTypeSize_cached].
      rewrite (getTypeSize_query t s Hk Hw).
      unfold getQualType, getAs, getTypeInfo, typeForBuiltin, bind, ret.
      destruct (kind t) eqn:Ek; try contradiction; cbn in Hd;
        try (destruct (decl t); [|exfalso; now apply Hd]);
        try (destruct (builtTypeKind t)); eexists; reflexivity.
Qed.

(** X20: [getTypeSize] returns exactly on the handles that are not
    [Invalid] and either carry a size already or are no class template and,
    being of a kind that wraps a declaration, do wrap one. *)
Theorem getTypeSize_returns_iff (t : CXXType) (s : Session) :
  (exists r, getTypeSize t s = Done r) <->
  kind t <> Invalid /\
  (Width (sizeAndAlign t) <> 0%N \/
   (kind t <> TemplateClass /\
    (needsDeclaration (kind t) = true -> decl t <> None))).
Proof.
  split.
  - intros [[[n t'] s'] H].
    assert (Hk : kind t <> Invalid).
    { intros Hk. unfold getTypeSize in H. rewrite Hk in H. discriminate. }
    split; [exact Hk|].
    destruct (N.eq_dec (Width (sizeAndAlign t)) 0%N) as [Hw|Hw]; [|now left].
    right. rewrite (getTypeSize_query t s Hk Hw) in H.
    apply bind_inv in H as (q & ? & Hq & H).
    apply getQualType_inv in Hq as [-> Hq].
    apply bind_inv in H as (info & ? & Hinfo & _).
    unfold getTypeInfo in Hinfo. destruct q as [q|]; [|discriminate].
    destruct (kind t) eqn:Ek; cbn in *; try discriminate;
      (split; [discriminate|]); intros Hn; try discriminate;
      destruct Hq as (d & Hd & _); congruence.
  - intros [Hk [Hw|[Ht Hd]]].
    + eexists. now apply getTypeSize_cached.
    + destruct (N.eq_dec (Width (sizeAndAlign t)) 0%N) as [Hw|Hw];
        [|eexists; now apply getTypeSize_cached].
      rewrite (getTypeSize_query t s Hk Hw).
      unfold getQualType, getAs, getTypeInfo, typeForBuiltin, bind, ret.
      destruct (kind t) eqn:Ek; try contradiction; cbn in Hd;
        try (destruct (decl t); [|exfalso; now apply Hd]);
        try (destruct (builtTypeKind t)); eexists; reflexivity.
Qed.

(** X21: a query on a handle without a size leaves the session alone and
    hands back the handle with the host's layout of its type filled in, the
    result being that width in bytes, rounded down; when that width is not
    zero, every later query on the new handle, in any session, gives the
    same result from the handle alone. *)
Theorem getTypeSize_caches (t t' : CXXType) (s s' : Session) (n : N) :
  Width (sizeAndAlign t) = 0%N ->
  getTypeSize t s = Done (n, t', s') ->
  s' = s /\
  exists q,
    getQualType t s = Done (Some q, s) /\
    t' = mkCXXType (kind t) (builtTypeKind t) (decl t) (layout s q) /\
    n = (Width (layout s q) / 8)%N /\
    (Width (layout s q) <> 0%N ->
     forall s2, getTypeSize t' s2 = Done (n, t', s2)).
Proof.
  intros Hw H.
  assert (Hk : kind t <> Invalid).
  { intros Hk. unfold getTypeSize in H. rewrite Hk in H. discriminate. }
  rewrite (getTypeSize_query t s Hk Hw) in H.
  apply bind_inv in H as (q & ? & Hq & H).
  pose proof Hq as Hq'. apply getQualType_inv in Hq' as [-> _].
  apply bind_inv in H as (info & ? & Hinfo & H).
  unfold getTypeInfo in Hinfo. destruct q as [q|]; [|discriminate].
  injection Hinfo as <- <-. injection H as <- <- <-.
  split; [reflexivity|]. exists q. split; [exact Hq|].
  split; [reflexivity|]. split; [reflexivity|].
  intros Hnz s2. now rewrite getTypeSize_cached.
Qed.

Lemma getTypeSize_caches_witness :
  exists n t' s',
    getTypeSize intType sampleSession = Done (n, t', s') /\
    s' = sampleSession /\
    exists q,
      getQualType intType sampleSession = Done (Some q, sampleSession) /\
      t' = mkCXXType (kind intType) (builtTypeKind intType) (decl intType)
             (layout sampleSession q) /\
      n = (Width (layout sampleSession q) / 8)%N /\
      (Width (layout sampleSession q) <> 0%N ->
       forall s2, getTypeSize t' s2 = Done (n, t', s2)).
Proof.
  eexists _, _, _.
  refine ((fun H => conj H
             (getTypeSize_caches intType _ sampleSession _ _ eq_refl H)) _).
  reflexivity.
Defined.

(** X22: a handle [getType] returns can be sized, in the session [getType]
    leaves, exactly when its kind is [Class] or [Enum]: the handles of
    class templates and of names that were not found cannot. *)
Theorem getType_then_getTypeSize (name : string) (s s' : Session)
    (h : CXXType) :
  getType name s = Done (h, s') ->
  (exists r, getTypeSize h s' = Done r) <-> kind h = Class \/ kind h = Enum.
Proof.
  intros H. rewrite getTypeSize_returns_when.
  pose proof (getType_unsized _ _ _ _ H) as Hw.
  unfold getType in H.
  destruct (foundTemplateClass _);
    [|destruct (foundClass _); [|destruct (foundEnum _)]];
    injection H as <- <-; cbn; split;
    try (intros [_ [Hc|[Hc _]]]; congruence);
    try (intros [Hc|Hc]; discriminate);
    try (intros [Hc _]; congruence);
    auto;
    intros _; (split; [discriminate|]); right;
    (split; [discriminate|]); discriminate.
Qed.

(** The name [Box] of the sample header is found as a class template. *)
Lemma getType_then_getTypeSize_witness :
  exists h s',
    getType "Box" sampleSession = Done (h, s') /\
    ((exists r, getTypeSize h s' = Done r) <->
     kind h = Class \/ kind h = Enum).
Proof.
  eexists _, _.
  refine ((fun H => conj H
             (getType_then_getTypeSize "Box" sampleSession _ _ H)) _).
  reflexivity.
Defined.

(** X23: every handle [instantiateClassTemplate] returns for a class
    template can be sized at once: it is the handle of a definition, and
    [getTypeSize] gives the width of that record's layout in bytes and
    fills the layout into the handle. *)
Theorem instantiateClassTemplate_then_getTypeSize (t : CXXType)
    (args : list TemplateArgument) (s s1 : Session) (h : CXXType) :
  kind t = TemplateClass ->
  instantiateClassTemplate t args s = Done (h, s1) ->
  exists Def,
    h = CXXType_specialization Def /\
    getTypeSize h s1 =
      Done ((Width (layout s1 (RecordType Def)) / 8)%N,
            mkCXXType SpecializedTemplateClass None (Some Def)
              (layout s1 (RecordType Def)),
            s1).
Proof.
  intros Hk H.
  destruct (instantiateClassTemplate_caches _ _ _ _ _ Hk H)
    as (T & tpl & Decl & sd & Def & _ & _ & _ & _ & _ & ->).
  exists Def. split; [reflexivity|].
  rewrite getTypeSize_query by (cbn; congruence). reflexivity.
Qed.

Lemma instantiateClassTemplate_then_getTypeSize_witness :
  exists h s1,
    instantiateClassTemplate (CXXType_template 3)
      [TypeArgument (BuiltinTy Int)] sampleSession = Done (h, s1) /\
    exists Def,
      h = CXXType_specialization Def /\
      getTypeSize h s1 =
        Done ((Width (layout s1 (RecordType Def)) / 8)%N,
              mkCXXType SpecializedTemplateClass None (Some Def)
                (layout s1 (RecordType Def)),
              s1).
Proof.
  eexists _, _.
  refine ((fun H => conj H
             (instantiateClassTemplate_then_getTypeSize (CXXType_template 3)
                [TypeArgument (BuiltinTy Int)] sampleSession _ _ eq_refl H))
          _).
  reflexivity.
Defined.

(** The type [getQualType] gives depends on the handle alone. *)
Lemma getQualType_functional t s1 s2 q1 q2 s1' s2' :
  getQualType t s1 = Done (q1, s1') -> getQualType t s2 = Done (q2, s2') ->
  q1 = q2.
Proof.
  unfold getQualType, getAs, bind, ret, abort.
  destruct (kind t), (decl t); intros H1 H2;
    inversion H1; inversion H2; congruence.
Qed.

Lemma getQualTypes_state args s qs s' :
  getQualTypes args s = Done (qs, s') -> s' = s.
Proof.
  revert qs s'. induction args as [|a args IH]; cbn; intros qs s' H.
  - now inversion H.
  - apply bind_inv in H as (q & ? & Hq & H).
    apply getQualType_state in Hq as ->.
    apply bind_inv in H as (qs' & ? & Hqs & H).
    apply IH in Hqs as ->. now inversion H.
Qed.

Lemma getQualTypes_functional args : forall s1 s2 q1 q2 s1' s2',
  getQualTypes args s1 = Done (q1, s1') ->
  getQualTypes args s2 = Done (q2, s2') -> q1 = q2.
Proof.
  induction args as [|a args IH]; cbn; intros s1 s2 q1 q2 s1' s2' G1 G2.
  - inversion G1; inversion G2; congruence.
  - apply bind_inv in G1 as (x & ? & Hx & G1).
    apply bind_inv in G1 as (xs & ? & Hxs & G1).
    apply bind_inv in G2 as (y & ? & Hy & G2).
    apply bind_inv in G2 as (ys & ? & Hys & G2).
    pose proof (getQualType_functional _ _ _ _ _ _ _ Hx Hy).
    pose proof (IH _ _ _ _ _ _ Hxs Hys).
    inversion G1; inversion G2; congruence.
Qed.

Lemma instantiateFunction_inv name args retn s func s' :
  instantiateFunction name args retn s = Done (func, s') ->
  exists argTys retTy,
    getQualTypes args s = Done (argTys, s) /\
    getQualType retn s = Done (retTy, s) /\
    func = nextDecl s /\
    s' = set_functions
           (insert (nextDecl s) (mkFunctionDecl name argTys retTy None None))
           (addDecl (mkNamedDecl (nextDecl s) name OtherDeclNode)
              (mkSession (ast s) (templates s) (specDecls s) (functions s)
                 (parameters s) (S (nextDecl s)) (layout s) (endOfFile s))).
Proof.
  unfold instantiateFunction. intros H.
  apply bind_inv in H as (argTys & ? & Ha & H).
  pose proof (getQualTypes_state _ _ _ _ Ha) as ->.
  apply bind_inv in H as (retTy & ? & Hr & H).
  pose proof (getQualType_state _ _ _ _ Hr) as ->.
  apply bind_inv in H as (f & ? & Hf & H).
  injection Hf as <- <-. injection H as <- <-.
  exists argTys, retTy. auto.
Qed.

(** X24: [instantiateFunction] never looks for a function it made before:
    a second call with the same name and types that returns gives a
    different declaration, the translation unit then holds both, in call
    order, and the two are alike: same name and type, no parameters set,
    no body. *)
Theorem instantiateFunction_always_new (name : string)
    (args : list CXXType) (retn : CXXType) (s s1 s2 : Session)
    (f1 f2 : DeclId) :
  instantiateFunction name args retn s = Done (f1, s1) ->
  instantiateFunction name args retn s1 = Done (f2, s2) ->
  f1 <> f2 /\
  ast s2 = ast s ++ [mkNamedDecl f1 name OtherDeclNode;
                     mkNamedDecl f2 name OtherDeclNode] /\
  exists f, functions s2 !! f1 = Some f /\ functions s2 !! f2 = Some f /\
            fnName f = name /\ ParamInfo f = None /\ fnBody f = None.
Proof.
  intros H1 H2.
  apply instantiateFunction_inv in H1
    as (argTys & retTy & Ha & Hr & -> & ->).
  apply instantiateFunction_inv in H2
    as (argTys' & retTy' & Ha' & Hr' & -> & ->).
  cbn. split; [lia|]. split; [now rewrite <- app_assoc|].
  assert (argTys' = argTys) by (eapply getQualTypes_functional; eauto).
  assert (retTy' = retTy) by (eapply getQualType_functional; eauto).
  subst. eexists. rewrite lookup_insert_ne by lia.
  rewrite !lookup_insert_eq. repeat split; reflexivity.
Qed.

Lemma instantiateFunction_always_new_witness :
  exists f1 s1 f2 s2,
    instantiateFunction "f" [intType] intType sampleSession =
      Done (f1, s1) /\
    instantiateFunction "f" [intType] intType s1 = Done (f2, s2) /\
    f1 <> f2 /\
    ast s2 = ast sampleSession ++ [mkNamedDecl f1 "f" OtherDeclNode;
                                   mkNamedDecl f2 "f" OtherDeclNode] /\
    exists f, functions s2 !! f1 = Some f /\ functions s2 !! f2 = Some f /\
              fnName f = "f" /\ ParamInfo f = None /\ fnBody f = None.
Proof.
  eexists _, _, _, _. split; [reflexivity|].
  refine ((fun H => conj H
             (instantiateFunction_always_new "f" [intType] intType
                sampleSession _ _ _ _ eq_refl H)) _).
  reflexivity.
Defined.

(** A declaration that is no class, template or enum matches none of the
    three matchers. *)
Lemma matchAST_other name decls d :
  nodeKind d = OtherDeclNode ->
  matchAST name (decls ++ [d]) = matchAST name decls.
Proof.
  intros Hk. unfold matchAST. rewrite fold_left_app. cbn.
  unfold runMatchers. rewrite Hk. now destruct (fold_left _ _ _).
Qed.

(** X25: a synthesized function, whatever its name, changes no type
    lookup: [getType] gives the same handle for every name before and
    after. *)
Theorem instantiateFunction_keeps_lookups (fname : string)
    (args : list CXXType) (retn : CXXType) (s s' : Session) (func : DeclId)
    (name : string) :
  instantiateFunction fname args retn s = Done (func, s') ->
  exists h, getType name s = Done (h, s) /\ getType name s' = Done (h, s').
Proof.
  intros H.
  apply instantiateFunction_inv in H as (argTys & retTy & _ & _ & -> & ->).
  unfold getType. cbn [ast set_functions addDecl].
  rewrite matchAST_other by reflexivity.
  destruct (foundTemplateClass _);
    [|destruct (foundClass _); [|destruct (foundEnum _)]];
    eexists; split; reflexivity.
Qed.

(** A function called [Box] beside the declarations called [Box]. *)
Lemma instantiateFunction_keeps_lookups_witness :
  exists func s',
    instantiateFunction "Box" [] intType sampleSession = Done (func, s') /\
    exists h, getType "Box" sampleSession = Done (h, sampleSession) /\
              getType "Box" s' = Done (h, s').
Proof.
  eexists _, _.
  refine ((fun H => conj H
             (instantiateFunction_keeps_lookups "Box" [] intType
                sampleSession _ _ "Box" H)) _).
  reflexivity.
Defined.

(** X26: [createIntegerLiteral] returns exactly when [len] is not zero and
    is the width the host lays [int] out on: the literal is always typed
    [int], and the host asserts that the value has the width of its
    type. *)
Theorem createIntegerLiteral_returns_iff (len val : N) (a : Arena) :
  (exists r, createIntegerLiteral len val a = Done r) <->
  len <> 0%N /\ len = Width (layout (session a) (BuiltinTy Int)).
Proof.
  unfold createIntegerLiteral, APInt, IntegerLiteral_Create, allocateStmt,
    liftSession, getQualType, getTypeInfo, freshDecl, bind, ret, assert.
  cbn.
  destruct (len =? 0)%N eqn:H0; cbn.
  - apply N.eqb_eq in H0. split; [intros [r H]; discriminate|].
    intros [H _]. contradiction.
  - apply N.eqb_neq in H0.
    destruct (len =? Width (layout (session a) (BuiltinTy Int)))%N eqn:Hw;
      cbn.
    + apply N.eqb_eq in Hw. split; [auto|]. intros _. eexists. reflexivity.
    + apply N.eqb_neq in Hw. split; [intros [r H]; discriminate|].
      intros [_ H]. contradiction.
Qed.

(** The literal holds [val] cut to [len] bits. *)
Lemma createIntegerLiteral_value (len val : N) (a a' : Arena)
    (lit : DeclId) :
  createIntegerLiteral len val a = Done (lit, a') ->
  lit = nextDecl (session a) /\
  statements a' !! lit =
    Some (IntegerLiteral len (val mod 2 ^ len)%N (BuiltinTy Int)) /\
  (forall id, id <> lit -> statements a' !! id = statements a !! id) /\
  functions (session a') = functions (session a).
Proof.
  unfold createIntegerLiteral, APInt, IntegerLiteral_Create, allocateStmt,
    liftSession, getQualType, getTypeInfo, freshDecl, bind, ret, assert.
  cbn.
  destruct (len =? 0)%N; cbn; [discriminate|].
  destruct (len =? Width (layout (session a) (BuiltinTy Int)))%N; cbn;
    [|discriminate].
  intros H. injection H as <- <-. cbn.
  rewrite lookup_insert_eq. repeat split; auto.
  intros id Hne. now rewrite lookup_insert_ne.
Qed.

Lemma createReturn_inv val func a r a' :
  createReturn val func a = Done (r, a') ->
  exists f,
    functions (session a) !! func = Some f /\
    r = nextDecl (session a) /\
    statements a' = <[r := ReturnStmt val]> (statements a) /\
    functions (session a') =
      <[func := mkFunctionDecl (fnName f) (fnParamTypes f) (fnReturnType f)
                  (ParamInfo f) (Some r)]> (functions (session a)) /\
    nextDecl (session a') = S (nextDecl (session a)).
Proof.
  unfold createReturn, allocateStmt, liftSession, setBody, getFunction,
    freshDecl, bind, ret. cbn.
  destruct (functions (session a) !! func) as [f|] eqn:Hf; [|discriminate].
  cbn. rewrite Hf. cbn. intros H. injection H as <- <-. cbn.
  exists f. auto.
Qed.

(** X27: a second [createReturn] on a function replaces its body: both
    statements exist, the function's body is the second one, and its
    parameters are as they were. *)
Theorem createReturn_replaces_body (v1 v2 : option DeclId) (func : DeclId)
    (a a1 a2 : Arena) (r1 r2 : DeclId) :
  createReturn v1 func a = Done (r1, a1) ->
  createReturn v2 func a1 = Done (r2, a2) ->
  r1 <> r2 /\
  statements a2 !! r1 = Some (ReturnStmt v1) /\
  statements a2 !! r2 = Some (ReturnStmt v2) /\
  (fnBody <$> functions (session a2) !! func) = Some (Some r2) /\
  getParams func (session a2) = getParams func (session a).
Proof.
  intros H1 H2.
  apply createReturn_inv in H1 as (f & Hf & -> & Hs1 & Hf1 & Hn1).
  apply createReturn_inv in H2 as (f' & Hf' & -> & Hs2 & Hf2 & Hn2).
  rewrite Hf1, lookup_insert_eq in Hf'. injection Hf' as <-. cbn in Hf2.
  rewrite Hn1. split; [lia|].
  rewrite Hs2, Hs1, Hn1.
  rewrite lookup_insert_ne by lia. rewrite !lookup_insert_eq.
  split; [reflexivity|]. split; [reflexivity|].
  unfold getParams. rewrite Hf2, lookup_insert_eq, Hf. cbn. rewrite Hn1.
  split; reflexivity.
Qed.

Lemma createReturn_replaces_body_witness :
  exists r1 a1 r2 a2,
    createReturn None 5 sampleFunctionArena = Done (r1, a1) /\
    createReturn None 5 a1 = Done (r2, a2) /\
    r1 <> r2 /\
    statements a2 !! r1 = Some (ReturnStmt None) /\
    statements a2 !! r2 = Some (ReturnStmt None) /\
    (fnBody <$> functions (session a2) !! 5) = Some (Some r2) /\
    getParams 5 (session a2) = getParams 5 (session sampleFunctionArena).
Proof.
  eexists _, _, _, _. split; [reflexivity|].
  refine ((fun H => conj H
             (createReturn_replaces_body None None 5 sampleFunctionArena
                _ _ _ _ eq_refl H)) _).
  reflexivity.
Defined.

(** On a null function pointer. *)
Lemma createReturn_unknown_function (val : option DeclId) (func : DeclId)
    (a : Arena) :
  functions (session a) !! func = None ->
  createReturn val func a = Abort (NullDereference "no such function").
Proof.
  intros H. unfold createReturn, liftSession, getFunction, bind. cbn.
  now rewrite H.
Qed.

(** X28: the four synthesis calls in sequence, with [len] the host's width
    of [int], build [int name(k param) { return val; }]: four consecutive
    nodes, the function with its one parameter and the return statement as
    body, the parameter owned by the function, the literal holding [val]
    cut to [len] bits. *)
Theorem synthesizeConstantFunction_builds (name param : string)
    (k : BuiltinTypeKinds) (val : N) (a : Arena) :
  let len := Width (layout (session a) (BuiltinTy Int)) in
  let n := nextDecl (session a) in
  len <> 0%N ->
  exists a',
    synthesizeConstantFunction name param k len val a =
      Done ((n, S n, S (S n), S (S (S n))), a') /\
    functions (session a') !! n =
      Some (mkFunctionDecl name [Some (BuiltinTy k)] (Some (BuiltinTy Int))
              (Some [S n]) (Some (S (S (S n))))) /\
    parameters (session a') !! S n =
      Some (mkParmVarDecl n param (Some (BuiltinTy k))) /\
    statements a' !! S (S n) =
      Some (IntegerLiteral len (val mod 2 ^ len)%N (BuiltinTy Int)) /\
    statements a' !! S (S (S n)) = Some (ReturnStmt (Some (S (S n)))).
Proof.
  cbv zeta. intros Hlen. apply N.eqb_neq in Hlen.
  unfold synthesizeConstantFunction, instantiateFunction,
    createFunctionArgument, createIntegerLiteral, createReturn, APInt,
    IntegerLiteral_Create, allocateStmt, ParmVarDecl_Create, setParams,
    setBody, liftSession, getFunction, getQualType, getTypeInfo, freshDecl,
    intType.
  repeat (progress (cbn; unfold bind, ret, assert;
                    rewrite ?lookup_insert_eq, ?Hlen, ?N.eqb_refl)).
  eexists. split; [reflexivity|]. cbn.
  rewrite !lookup_insert_eq.
  rewrite lookup_insert_ne by lia. rewrite lookup_insert_eq. auto.
Qed.

Lemma synthesizeConstantFunction_builds_witness :
  exists a',
    synthesizeConstantFunction "f" "x" Int 32 7 sampleArena =
      Done ((10, 11, 12, 13), a') /\
    functions (session a') !! 10 =
      Some (mkFunctionDecl "f" [Some (BuiltinTy Int)] (Some (BuiltinTy Int))
              (Some [11]) (Some 13)) /\
    parameters (session a') !! 11 =
      Some (mkParmVarDecl 10 "x" (Some (BuiltinTy Int))) /\
    statements a' !! 12 =
      Some (IntegerLiteral 32 (7 mod 2 ^ 32)%N (BuiltinTy Int)) /\
    statements a' !! 13 = Some (ReturnStmt (Some 12)).
Proof.
  apply (synthesizeConstantFunction_builds "f" "x" Int 7 sampleArena).
  discriminate.
Defined.

Lemma lookupSpecialization_app_Some args l extra d :
  lookupSpecialization args l = Some d ->
  lookupSpecialization args (l ++ extra) = Some d.
Proof.
  induction l as [|[k d'] l IH]; cbn; [discriminate|].
  destruct (decide (k = args)); auto.
Qed.

(** What the tail of [instantiateClassTemplate] changes. *)
Lemma complete_effect Decl s h s' :
  complete Decl s = Done (h, s') ->
  templates s' = templates s /\ nextDecl s' = nextDecl s /\
  (forall d, d <> Decl -> specDecls s' !! d = specDecls s !! d) /\
  exists sd0 sd',
    specDecls s !! Decl = Some sd0 /\ specDecls s' !! Decl = Some sd' /\
    (forall D, definition sd0 = Some D -> definition sd' = Some D).
Proof.
  unfold complete. intros H.
  apply bind_inv in H as (sd0 & ? & H0 & H).
  apply getSpecializationDecl_inv in H0 as [Hsd0 ->].
  apply bind_inv in H as ([] & sa & Hattr & H).
  assert (Ha : exists sda, specDecls sa !! Decl = Some sda /\
                 definition sda = definition sd0 /\
                 templates sa = templates s /\ nextDecl sa = nextDecl s /\
                 forall d, d <> Decl -> specDecls sa !! d = specDecls s !! d).
  { destruct (specializationKind sd0);
      try (inversion Hattr; subst; eauto 8; fail).
    unfold InstantiateAttrsForDecl in Hattr.
    rewrite (bind_Done _ _ _ _ _ (getSpecializationDecl_run _ _ _ Hsd0))
      in Hattr.
    inversion Hattr; subst; clear Hattr. cbn.
    rewrite lookup_insert_eq. eexists. repeat split; auto.
    intros d Hne. now rewrite lookup_insert_ne. }
  destruct Ha as (sda & Hsda & Hdefa & Hta & Hna & Hoa).
  rewrite (bind_Done _ _ _ _ _ (getSpecializationDecl_run _ _ _ Hsda)) in H.
  apply bind_inv in H as (Def & sb & HDef & H).
  injection H as <- <-.
  destruct (definition sda) as [d|] eqn:Hd.
  - injection HDef as <- <-.
    repeat split; auto. exists sd0, sda. repeat split; auto.
    intros D HD. congruence.
  - apply bind_inv in HDef as (loc & ? & Hloc & HDef).
    injection Hloc as <- <-.
    apply bind_inv in HDef as ([] & ? & Hass & HDef).
    apply assert_inv in Hass as [_ ->].
    apply bind_inv in HDef as ([] & sc & Hinst & HDef).
    apply bind_inv in HDef as (sdc & ? & Hg & HDef).
    apply getSpecializationDecl_inv in Hg as [Hsdc ->].
    destruct (definition sdc) as [d|] eqn:Hdc; [|discriminate].
    injection HDef as <- <-.
    unfold InstantiateClassTemplateSpecialization in Hinst.
    rewrite (bind_Done _ _ _ _ _ (getSpecializationDecl_run _ _ _ Hsda))
      in Hinst.
    apply bind_inv in Hinst as (t & ? & Ht & Hinst).
    apply getClassTemplate_inv in Ht as [_ ->].
    assert (Hc : templates sc = templates sa /\ nextDecl sc = nextDecl sa /\
                 forall x, x <> Decl -> specDecls sc !! x = specDecls sa !! x).
    { destruct (patternDefined t); inversion Hinst; subst; cbn;
        repeat split; auto.
      intros x Hne. now rewrite lookup_insert_ne. }
    destruct Hc as (Htc & Hnc & Hoc).
    split; [congruence|]. split; [congruence|].
    split; [intros x Hne; rewrite Hoc, Hoa; auto|].
    exists sd0, sdc. repeat split; auto.
    intros D HD. congruence.
Qed.

(** What the search for the declaration changes. *)
Lemma findOrCreate_effect T args s Decl s' :
  (found <-- findSpecialization T args ;;
   match found with
   | Some d => ret d
   | None =>
       d <-- ClassTemplateSpecializationDecl_Create T args ;;
       AddSpecialization T d args ;;;
       ret d
   end) s = Done (Decl, s') ->
  s' = s \/
  exists tpl,
    templates s !! T = Some tpl /\
    Decl = nextDecl s /\
    nextDecl s' = S (nextDecl s) /\
    templates s' =
      <[T := mkClassTemplateDecl (patternDefined tpl)
               (specializations tpl ++ [(args, Decl)])]> (templates s) /\
    specDecls s' =
      <[Decl := mkSpecializationDecl T args TSK_Undeclared None 0]>
        (specDecls s).
Proof.
  intros H.
  apply bind_inv in H as (found & ? & Hfind & H).
  unfold findSpecialization in Hfind.
  apply bind_inv in Hfind as (tpl & ? & Htpl & Hfind).
  apply getClassTemplate_inv in Htpl as [Htpl ->].
  injection Hfind as <- <-.
  destruct (lookupSpecialization args (specializations tpl)) as [d|].
  - injection H as <- <-. now left.
  - right. apply bind_inv in H as (d & sA & Hcreate & H).
    inversion Hcreate; subst; clear Hcreate.
    apply bind_inv in H as ([] & ? & Hadd & H).
    injection H as <- <-.
    unfold AddSpecialization in Hadd.
    apply bind_inv in Hadd as (tpl' & ? & Htpl' & Hadd).
    apply getClassTemplate_inv in Htpl' as [Htpl' ->].
    cbn in Htpl'. rewrite Htpl in Htpl'. injection Htpl' as <-.
    injection Hadd as <-. exists tpl. cbn. auto.
Qed.

(** Every call keeps the declarations below [nextDecl]. *)
Lemma instantiateClassTemplate_ordered t args s h s' :
  ordered s -> instantiateClassTemplate t args s = Done (h, s') ->
  ordered s'.
Proof.
  intros Hord H.
  destruct (decide (kind t = TemplateClass)) as [Hk|Hk].
  2:{ rewrite (instantiateClassTemplate_guard t args s Hk) in H.
      now injection H as <- <-. }
  rewrite (instantiateClassTemplate_tail _ _ Hk) in H.
  apply bind_inv in H as (T & ? & HT & H).
  apply getAs_inv in HT as [_ ->].
  apply bind_inv in H as (found & s0 & Hf & H).
  apply bind_inv in H as (Decl & s1 & HDecl & H).
  assert (Hfc : (found <-- findSpecialization T args ;;
                 match found with
                 | Some d => ret d
                 | None =>
                     d <-- ClassTemplateSpecializationDecl_Create T args ;;
                     AddSpecialization T d args ;;;
                     ret d
                 end) s = Done (Decl, s1))
    by (rewrite (bind_Done _ _ _ _ _ Hf); exact HDecl).
  apply findOrCreate_effect in Hfc.
  apply complete_effect in H
    as (_ & Hn & Hother & sd0 & sd' & Hsd0 & Hsd' & _).
  assert (Hord1 : ordered s1).
  { destruct Hfc as [->|(tpl & _ & -> & Hn1 & _ & Hs1)]; [exact Hord|].
    intros d sd Hd. rewrite Hs1 in Hd. rewrite Hn1.
    destruct (decide (d = nextDecl s)) as [->|Hne]; [lia|].
    rewrite lookup_insert_ne in Hd by congruence.
    apply Hord in Hd. lia. }
  intros d sd Hd. rewrite Hn.
  destruct (decide (d = Decl)) as [->|Hne].
  - now apply (Hord1 _ sd0).
  - rewrite Hother in Hd by exact Hne. now apply (Hord1 _ sd).
Qed.

(** A specialization that is defined stays found and defined through any
    later call. *)
Lemma instantiateClassTemplate_keeps_cached t args s h s' T0 args0 Def0 :
  ordered s -> cachedDefinition T0 args0 Def0 s ->
  instantiateClassTemplate t args s = Done (h, s') ->
  cachedDefinition T0 args0 Def0 s'.
Proof.
  intros Hord (tpl0 & Decl0 & sd0 & Htpl0 & Hl0 & Hsd0 & Hdef0) H.
  destruct (decide (kind t = TemplateClass)) as [Hk|Hk].
  2:{ rewrite (instantiateClassTemplate_guard t args s Hk) in H.
      injection H as <- <-. now exists tpl0, Decl0, sd0. }
  rewrite (instantiateClassTemplate_tail _ _ Hk) in H.
  apply bind_inv in H as (T & ? & HT & H).
  apply getAs_inv in HT as [_ ->].
  apply bind_inv in H as (found & s0 & Hf & H).
  apply bind_inv in H as (Decl & s1 & HDecl & H).
  assert (Hfc : (found <-- findSpecialization T args ;;
                 match found with
                 | Some d => ret d
                 | None =>
                     d <-- ClassTemplateSpecializationDecl_Create T args ;;
                     AddSpecialization T d args ;;;
                     ret d
                 end) s = Done (Decl, s1))
    by (rewrite (bind_Done _ _ _ _ _ Hf); exact HDecl).
  apply findOrCreate_effect in Hfc.
  assert (H1 : cachedDefinition T0 args0 Def0 s1).
  { destruct Hfc as [->|(tpl & Htpl & -> & _ & Ht1 & Hs1)];
      [now exists tpl0, Decl0, sd0|].
    assert (Hne : Decl0 <> nextDecl s) by (apply Hord in Hsd0; lia).
    destruct (decide (T = T0)) as [->|HT].
    - rewrite Htpl0 in Htpl. injection Htpl as <-.
      eexists _, Decl0, sd0. rewrite Ht1, Hs1, lookup_insert_eq.
      rewrite lookup_insert_ne by congruence.
      repeat split; auto. cbn. now apply lookupSpecialization_app_Some.
    - exists tpl0, Decl0, sd0. rewrite Ht1, Hs1.
      rewrite !lookup_insert_ne by congruence. auto. }
  clear Htpl0 Hl0 Hsd0 Hdef0 tpl0 Decl0 sd0.
  destruct H1 as (tpl0 & Decl0 & sd0 & Htpl0 & Hl0 & Hsd0 & Hdef0).
  apply complete_effect in H
    as (Ht & _ & Hother & sda & sdb & Hsda & Hsdb & Hkeep).
  destruct (decide (Decl0 = Decl)) as [->|Hne].
  - exists tpl0, Decl, sdb. rewrite Ht. repeat split; auto.
    apply Hkeep. congruence.
  - exists tpl0, Decl0, sd0. rewrite Ht, Hother by exact Hne. auto.
Qed.

(** X29: a specialization outlives later instantiations: after any other
    call of [instantiateClassTemplate] has returned, asking again for the
    first template and arguments gives the first handle, and allocates and
    registers nothing. *)
Theorem instantiateClassTemplate_keeps_earlier (t1 t2 : CXXType)
    (args1 args2 : list TemplateArgument) (s s1 s2 : Session)
    (h1 h2 : CXXType) :
  ordered s ->
  instantiateClassTemplate t1 args1 s = Done (h1, s1) ->
  instantiateClassTemplate t2 args2 s1 = Done (h2, s2) ->
  exists s3,
    instantiateClassTemplate t1 args1 s2 = Done (h1, s3) /\
    nextDecl s3 = nextDecl s2 /\ templates s3 = templates s2.
Proof.
  intros Hord H1 H2.
  destruct (decide (kind t1 = TemplateClass)) as [Hk|Hk].
  2:{ rewrite (instantiateClassTemplate_guard t1 args1 s Hk) in H1.
      injection H1 as <- <-. exists s2.
      now rewrite (instantiateClassTemplate_guard t1 args1 s2 Hk). }
  pose proof (instantiateClassTemplate_ordered _ _ _ _ _ Hord H1) as Hord1.
  destruct (instantiateClassTemplate_caches _ _ _ _ _ Hk H1)
    as (T & tpl & Decl & sd & Def & HT & Htpl & Hl & Hsd & Hdef & ->).
  assert (Hc : cachedDefinition T args1 Def s1)
    by (now exists tpl, Decl, sd).
  destruct (instantiateClassTemplate_keeps_cached _ _ _ _ _ _ _ _
              Hord1 Hc H2) as (tpl' & Decl' & sd' & Htpl' & Hl' & Hsd' & Hdef').
  destruct (complete_defined Decl' s2 sd' Def Hsd' Hdef')
    as (s3 & Hrun & Htemplates & Hnext).
  exists s3. repeat split; auto.
  rewrite (instantiateClassTemplate_tail _ _ Hk).
  unfold getAs. rewrite HT. cbn. unfold findSpecialization.
  rewrite (bind_Done _ _ _ _ _
             (bind_Done _ _ _ _ _ (getClassTemplate_run _ _ _ Htpl'))).
  cbn. rewrite Hl'. exact Hrun.
Qed.

Lemma ordered_sampleSession : ordered sampleSession.
Proof.
  intros d sd H. cbn in H. rewrite lookup_empty in H. discriminate H.
Defined.

(** [Box<int>], then [Box<double>], then [Box<int>] again. *)
Lemma instantiateClassTemplate_keeps_earlier_witness :
  exists h1 s1 h2 s2 s3,
    instantiateClassTemplate (CXXType_template 3)
      [TypeArgument (BuiltinTy Int)] sampleSession = Done (h1, s1) /\
    instantiateClassTemplate (CXXType_template 3)
      [TypeArgument (BuiltinTy Double)] s1 = Done (h2, s2) /\
    instantiateClassTemplate (CXXType_template 3)
      [TypeArgument (BuiltinTy Int)] s2 = Done (h1, s3) /\
    nextDecl s3 = nextDecl s2 /\ templates s3 = templates s2.
Proof.
  edestruct (instantiateClassTemplate_keeps_earlier
               (CXXType_template 3) (CXXType_template 3)
               [TypeArgument (BuiltinTy Int)]
               [TypeArgument (BuiltinTy Double)] sampleSession)
    as (s3 & H3 & Hn & Ht);
    [exact ordered_sampleSession | reflexivity | reflexivity |].
  eexists _, _, _, _, s3. split; [reflexivity|]. split; [reflexivity|].
  split; [exact H3|]. split; assumption.
Defined.

Lemma lookupSpecialization_app_None args l k d :
  lookupSpecialization args l = None -> k <> args ->
  lookupSpecialization args (l ++ [(k, d)]) = None.
Proof.
  intros Hl Hne. induction l as [|[k' d'] l IH]; cbn in *.
  - now rewrite decide_False.
  - destruct (decide (k' = args)); [discriminate|auto].
Qed.

(** The first instantiation of a defined template with given arguments. *)
Lemma instantiateClassTemplate_fresh_effect T tpl args s :
  templates s !! T = Some tpl -> patternDefined tpl = true ->
  lookupSpecialization args (specializations tpl) = None ->
  endOfFile s <> 0 ->
  exists s1,
    instantiateClassTemplate (CXXType_template T) args s =
      Done (CXXType_specialization (nextDecl s), s1) /\
    nextDecl s1 = S (nextDecl s) /\
    endOfFile s1 = endOfFile s /\
    templates s1 =
      <[T := mkClassTemplateDecl (patternDefined tpl)
               (specializations tpl ++ [(args, nextDecl s)])]>
        (templates s).
Proof.
  intros HT Hdef Hnone Heof.
  apply Nat.eqb_neq in Heof.
  rewrite (instantiateClassTemplate_tail (CXXType_template T) args eq_refl).
  unfold complete, findSpecialization, AddSpecialization,
    ClassTemplateSpecializationDecl_Create, InstantiateAttrsForDecl,
    InstantiateClassTemplateSpecialization, getEndOfFileLocation,
    getSpecializationDecl, getClassTemplate, getAs, freshDecl, assert,
    bind, ret.
  repeat (progress (cbn; rewrite ?lookup_insert_eq, ?HT, ?Hnone, ?Heof, ?Hdef)).
  eexists. split; [reflexivity|]. cbn. auto.
Qed.

(** X30: two argument lists a defined template was not yet instantiated
    with, if different, give two different specializations: both calls
    return, each allocates its own declaration, and the handles differ. *)
Theorem instantiateClassTemplate_distinct_arguments (T : DeclId)
    (tpl : ClassTemplateDecl) (args1 args2 : list TemplateArgument)
    (s : Session) :
  templates s !! T = Some tpl -> patternDefined tpl = true ->
  lookupSpecialization args1 (specializations tpl) = None ->
  lookupSpecialization args2 (specializations tpl) = None ->
  args1 <> args2 ->
  endOfFile s <> 0 ->
  exists h1 s1 h2 s2,
    instantiateClassTemplate (CXXType_template T) args1 s = Done (h1, s1) /\
    instantiateClassTemplate (CXXType_template T) args2 s1 = Done (h2, s2) /\
    decl h1 = Some (nextDecl s) /\ decl h2 = Some (S (nextDecl s)) /\
    h1 <> h2.
Proof.
  intros HT Hdef Hn1 Hn2 Hne Heof.
  destruct (instantiateClassTemplate_fresh_effect T tpl args1 s HT Hdef Hn1
              Heof) as (s1 & H1 & Hnext & Heof1 & Ht1).
  assert (HT1 : templates s1 !! T =
                Some (mkClassTemplateDecl (patternDefined tpl)
                        (specializations tpl ++ [(args1, nextDecl s)])))
    by (rewrite Ht1; apply lookup_insert_eq).
  destruct (instantiateClassTemplate_fresh_effect T _ args2 s1 HT1 Hdef)
    as (s2 & H2 & _).
  { cbn. now apply lookupSpecialization_app_None. }
  { congruence. }
  eexists _, s1, _, s2. split; [exact H1|]. split; [exact H2|].
  rewrite Hnext. cbn. repeat split. intros [= H]. lia.
Qed.

Lemma instantiateClassTemplate_distinct_arguments_witness :
  exists h1 s1 h2 s2,
    instantiateClassTemplate (CXXType_template 3)
      [TypeArgument (BuiltinTy Int)] sampleSession = Done (h1, s1) /\
    instantiateClassTemplate (CXXType_template 3)
      [TypeArgument (BuiltinTy Double)] s1 = Done (h2, s2) /\
    decl h1 = Some (nextDecl sampleSession) /\
    decl h2 = Some (S (nextDecl sampleSession)) /\
    h1 <> h2.
Proof.
  apply (instantiateClassTemplate_distinct_arguments 3
           (mkClassTemplateDecl true []) [TypeArgument (BuiltinTy Int)]
           [TypeArgument (BuiltinTy Double)] sampleSession);
    [reflexivity | reflexivity | reflexivity | reflexivity
    | discriminate | discriminate].
Defined.

End BridgeSessions.
